(** * Startup orchestration and global error capture of the root component
      [App] (App.js), embedded in Rocq.

    React state ([isReady], [initialRouteName], [loadingMessage],
    [authChecked]) is modelled as a record updated by timed events.  Every
    run of the async function [initializeApp] reads the state values it
    captured in its closure when the effect ran, exactly as the JavaScript
    does; its effects are a list of timestamped events produced in a small
    timed exception monad. *)

From Stdlib Require Import List String ZArith Bool Lia FunctionalExtensionality.
Import ListNotations.

Open Scope Z_scope.

(** ** Data model *)

Inductive route := Login | MainApp.

Definition route_eqb (a b : route) : bool :=
  match a, b with
  | Login, Login | MainApp, MainApp => true
  | _, _ => false
  end.

(** The React state of [App]. *)
Record StartupState := mkStartupState {
  isReady : bool;
  initialRouteName : option route;
  loadingMessage : string;
  authChecked : bool
}.

Definition initial_state : StartupState :=
  mkStartupState false None "Initializing..."%string false.

(** Observable effects: state setters and calls to external services. *)
Inductive event :=
| SetLoadingMessage (s : string)
| SetInitialRouteName (r : route)
| SetIsReady
| SetAuthChecked
| CheckForUpdate
| FetchUpdate
| Reload
| NetInfoFetch
| Sleep (ms : Z)
| RegisterPush
| SetupNotificationListeners
| CaptureException.

Definition timed := (Z * event)%type.

(** ** A timed exception monad

    A computation starts at a wall-clock time and returns an outcome, the
    time at which it finishes and the events it emitted.  [Reloaded] is
    [Updates.reloadAsync()], which restarts the process and never returns
    (the Update Service contract: [reload() -> never-returns]); it is not
    caught by [try]/[catch]. *)
Inductive outcome (A : Type) := Done (a : A) | Thrown | Reloaded.
Arguments Done {A} a.
Arguments Thrown {A}.
Arguments Reloaded {A}.

Definition M (A : Type) : Type := Z -> outcome A * Z * list timed.

Definition ret {A} (a : A) : M A := fun t => (Done a, t, []).

Definition bind {A B} (m : M A) (k : A -> M B) : M B :=
  fun t =>
    match m t with
    | (Done a, t1, l1) => let '(r, t2, l2) := k a t1 in (r, t2, l1 ++ l2)
    | (Thrown, t1, l1) => (Thrown, t1, l1)
    | (Reloaded, t1, l1) => (Reloaded, t1, l1)
    end.

Notation "'let*' x ':=' m 'in' k" := (bind m (fun x => k))
  (at level 200, x name, m at level 100, k at level 200).
Notation "m ;; k" := (bind m (fun _ => k)) (at level 100, right associativity).

Definition emit (e : event) : M unit := fun t => (Done tt, t, [(t, e)]).

(** [await new Promise(resolve => setTimeout(resolve, ms))] *)
Definition sleep (ms : Z) : M unit := fun t => (Done tt, t + ms, [(t, Sleep ms)]).

(** An awaited external call taking [d] milliseconds. *)
Definition call_ext (e : event) (d : Z) : M unit :=
  fun t => (Done tt, t + d, [(t, e)]).

(** [Date.now()] *)
Definition now : M Z := fun t => (Done t, t, []).

Definition throw {A} : M A := fun t => (Thrown, t, []).

Definition reload {A} : M A := fun t => (Reloaded, t, [(t, Reload)]).

Definition try_catch {A} (m : M A) (h : M A) : M A :=
  fun t =>
    match m t with
    | (Thrown, t1, l1) => let '(r, t2, l2) := h t1 in (r, t2, l1 ++ l2)
    | res => res
    end.

Definition run_events {A} (m : M A) (t : Z) : list timed := snd (m t).
Definition run_outcome {A} (m : M A) (t : Z) : outcome A := fst (fst (m t)).
Definition run_end {A} (m : M A) (t : Z) : Z := snd (fst (m t)).

(** ** External services seen by one launch *)

Inductive update_check := UpToDate | UpdateAvailable | CheckFails.

Record Env := mkEnv {
  dev : bool;                 (** [__DEV__] *)
  sentry_dsn : bool;          (** [process.env.EXPO_PUBLIC_SENTRY_DSN] set *)
  update : update_check;      (** result of [Updates.checkForUpdateAsync()] *)
  fetch_ok : bool;            (** [Updates.fetchUpdateAsync()] resolves *)
  d_check : Z;                (** durations of the awaited calls (ms) *)
  d_fetch : Z;
  net_ok : bool;              (** NetInfo import and [fetch()] resolve *)
  d_net : Z;
  push_ok : bool;             (** [registerForPushNotifications()] resolves *)
  d_push : Z;
  listeners_ok : bool         (** [setupNotificationListeners] returns *)
}.

(** ** [initializeApp] (App.js, lines 235-348) *)

Definition minDisplayTime : Z := 2000.
Definition authCheckInterval : Z := 100.
Definition maxAuthWait : Z := 5000.

(** [while (!authChecked && authWaitTime < maxAuthWait) { ... }]: the
    condition of the polling loop, with [authChecked] the value captured by
    the closure. *)
Definition poll_cond (ac : bool) (authWaitTime : Z) : bool :=
  negb ac && (authWaitTime <? maxAuthWait).

(** The loop, run on a budget of iterations; [poll_fuel] is more than the
    loop can ever use ([poll_loop_exec] below). *)
Fixpoint poll_loop (ac : bool) (authWaitTime : Z) (fuel : nat) : M Z :=
  match fuel with
  | O => ret authWaitTime
  | S f =>
      if poll_cond ac authWaitTime then
        sleep authCheckInterval ;;
        poll_loop ac (authWaitTime + authCheckInterval) f
      else ret authWaitTime
  end.

Definition poll_fuel : nat := S (Z.to_nat (maxAuthWait / authCheckInterval)).

(** Lines 324-331: minimum display time of the splash screen. *)
Definition min_display_wait (startTime : Z) : M unit :=
  let* t := now in
  let elapsed := t - startTime in
  let remainingTime := Z.max 0 (minDisplayTime - elapsed) in
  if remainingTime >? 0 then
    emit (SetLoadingMessage "Almost ready...") ;;
    sleep remainingTime
  else ret tt.

Definition checkForUpdateAsync (env : Env) : M bool :=
  call_ext CheckForUpdate (d_check env) ;;
  match update env with
  | UpToDate => ret false
  | UpdateAvailable => ret true
  | CheckFails => throw
  end.

Definition fetchUpdateAsync (env : Env) : M unit :=
  call_ext FetchUpdate (d_fetch env) ;;
  if fetch_ok env then ret tt else throw.

Definition netinfo_fetch (env : Env) : M unit :=
  call_ext NetInfoFetch (d_net env) ;;
  if net_ok env then ret tt else throw.

Definition registerForPushNotifications (env : Env) : M unit :=
  call_ext RegisterPush (d_push env) ;;
  if push_ok env then ret tt else throw.

Definition setupNotificationListeners (env : Env) : M unit :=
  emit SetupNotificationListeners ;;
  if listeners_ok env then ret tt else throw.

(** Lines 243-272: the OTA update check, production only. *)
Definition ota_update_check (env : Env) : M unit :=
  if negb (dev env) then
    try_catch
      (emit (SetLoadingMessage "Checking for updates...") ;;
       let* available := checkForUpdateAsync env in
       if available then
         emit (SetLoadingMessage "Downloading update...") ;;
         fetchUpdateAsync env ;;
         reload
       else ret tt)
      (if sentry_dsn env then emit CaptureException else ret tt)
  else ret tt.

(** One run of [initializeApp]; [ac] and [route0] are the values of
    [authChecked] and [initialRouteName] captured by the closure of the
    effect that started the run. *)
Definition initializeApp (env : Env) (ac : bool) (route0 : option route) : M unit :=
  let* startTime := now in
  try_catch
    (emit (SetLoadingMessage "Loading assets...") ;;
     ota_update_check env ;;
     netinfo_fetch env ;;
     sleep 500 ;;
     emit (SetLoadingMessage "Checking authentication...") ;;
     let* _ := poll_loop ac 0 poll_fuel in
     (match route0 with
      | None => emit (SetInitialRouteName Login)
      | Some _ => ret tt
      end) ;;
     emit (SetLoadingMessage "Setting up notifications...") ;;
     try_catch (registerForPushNotifications env) (ret tt) ;;
     emit (SetLoadingMessage "Finalizing...") ;;
     setupNotificationListeners env ;;
     min_display_wait startTime ;;
     emit SetIsReady)
    ((match route0 with
      | None => emit (SetInitialRouteName Login)
      | Some _ => ret tt
      end) ;;
     emit SetIsReady).

(** ** The launch: state, the auth listener and the effect re-runs *)

Definition apply_event (s : StartupState) (e : event) : StartupState :=
  match e with
  | SetLoadingMessage m =>
      mkStartupState (isReady s) (initialRouteName s) m (authChecked s)
  | SetInitialRouteName r =>
      mkStartupState (isReady s) (Some r) (loadingMessage s) (authChecked s)
  | SetIsReady =>
      mkStartupState true (initialRouteName s) (loadingMessage s) (authChecked s)
  | SetAuthChecked =>
      mkStartupState (isReady s) (initialRouteName s) (loadingMessage s) true
  | _ => s
  end.

(** The state after the events of [tr] that happen at or before [t]. *)
Definition state_upto (t : Z) (tr : list timed) : StartupState :=
  fold_left (fun s te => if fst te <=? t then apply_event s (snd te) else s)
    tr initial_state.

Definition final_state (tr : list timed) : StartupState :=
  fold_left (fun s te => apply_event s (snd te)) tr initial_state.

Definition is_ready_event (e : event) : bool :=
  match e with SetIsReady => true | _ => false end.

Definition ready_before (tr : list timed) (t : Z) : bool :=
  existsb (fun te => (fst te <? t) && is_ready_event (snd te)) tr.

(** Interleaving of two time-ordered event lists (ties: left first). *)
Fixpoint merge (l1 : list timed) : list timed -> list timed :=
  match l1 with
  | [] => fun l2 => l2
  | x :: r1 =>
      fix merge_r (l2 : list timed) : list timed :=
        match l2 with
        | [] => x :: r1
        | y :: r2 => if fst y <? fst x then y :: merge_r r2 else x :: merge r1 l2
        end
  end.

(** [reloadAsync] restarts the process: nothing of this launch happens
    after it. *)
Fixpoint upto_reload (tr : list timed) : list timed :=
  match tr with
  | [] => []
  | (t, Reload) :: _ => [(t, Reload)]
  | te :: r => te :: upto_reload r
  end.

(** What the Auth Service reports to [onAuthStateChanged]. *)
Inductive auth_report := AuthUser | AuthNoUser | AuthFailure.

(** The listener of lines 185-226.  [ready_at t] is the value of [isReady]
    in the closure of the subscription active at [t] (the effect subscribes
    again, with [hasSetInitialRoute = false], when [isReady] changes; the
    new closure has [isReady = true], so it never sets a route).  The route
    written is [MainApp] for a user and [Login] otherwise (the error
    callback defaults to [Login]); every callback sets [authChecked]. *)
Fixpoint auth_listener (ready_at : Z -> bool) (hasSetInitialRoute : bool)
    (reports : list (Z * auth_report)) : list timed :=
  match reports with
  | [] => []
  | (t, a) :: rest =>
      if negb hasSetInitialRoute && negb (ready_at t) then
        let r := match a with AuthUser => MainApp | _ => Login end in
        (t, SetInitialRouteName r) :: (t, SetAuthChecked)
          :: auth_listener ready_at true rest
      else (t, SetAuthChecked) :: auth_listener ready_at hasSetInitialRoute rest
  end.

(** [useEffect(..., [authChecked])]: the effect runs at mount and again at
    every render whose [authChecked] differs from the previous one.  The
    result lists the start time of each run and the value it captured. *)
Fixpoint dep_changes (prev : bool) (writes : list (Z * bool)) : list (Z * bool) :=
  match writes with
  | [] => []
  | (t, v) :: rest =>
      if Bool.eqb v prev then dep_changes prev rest
      else (t, v) :: dep_changes v rest
  end.

Definition effect_runs (writes : list (Z * bool)) : list (Z * bool) :=
  (0, false) :: dep_changes false writes.

(** The writes to [authChecked]: every [setAuthChecked] call passes [true]. *)
Definition authChecked_writes (tr : list timed) : list (Z * bool) :=
  flat_map (fun te => match snd te with SetAuthChecked => [(fst te, true)] | _ => [] end) tr.

(** The callbacks of the auth listener during a launch: before the first
    [authChecked] change only the first run of [initializeApp] (mounted
    at time 0 with [authChecked = false], [initialRouteName = null]) can
    have set [isReady]. *)
Definition launch_callbacks (env : Env) (reports : list (Z * auth_report)) : list timed :=
  let tr1 := run_events (initializeApp env false None) 0 in
  auth_listener (ready_before tr1) false reports.

(** The runs of the [initializeApp] effect: start time and captured
    [authChecked]. *)
Definition launch_runs (env : Env) (reports : list (Z * auth_report)) : list (Z * bool) :=
  effect_runs (authChecked_writes (launch_callbacks env reports)).

(** A launch: every effect run captures the state current at its start. *)
Definition launch (env : Env) (reports : list (Z * auth_report)) : list timed :=
  upto_reload
    (fold_left
       (fun acc (run : Z * bool) =>
          let '(t, ac) := run in
          let route0 := initialRouteName (state_upto t acc) in
          merge acc (run_events (initializeApp env ac route0) t))
       (launch_runs env reports) (launch_callbacks env reports)).

Definition route_writes (tr : list timed) : list (Z * route) :=
  flat_map (fun te => match snd te with SetInitialRouteName r => [(fst te, r)] | _ => [] end) tr.

Definition ready_times (tr : list timed) : list Z :=
  flat_map (fun te => if is_ready_event (snd te) then [fst te] else []) tr.

(** ** Global error capture (App.js, lines 120-182) *)

Module ErrorCapture.

Local Open Scope string_scope.

(** JavaScript values that reach the handlers.  [JObj message stack repr]
    is an object (an [Error]); an empty [message] or [stack] is absent or
    falsy, [repr] is [String(value)].  [JPrim repr truthy] is a primitive
    thrown value: its [.message] and [.stack] are [undefined]. *)
Inductive jsval :=
| JUndefined
| JNull
| JObj (message stack repr : string)
| JPrim (repr : string) (truthy : bool).

Definition truthy (v : jsval) : bool :=
  match v with
  | JUndefined | JNull => false
  | JObj _ _ _ => true
  | JPrim _ b => b
  end.

(** An Error Log Entry. *)
Record entry := mkEntry {
  timestamp : Z;
  context : string;
  message : string;
  stack : string
}.

(** The value stored under the key ['error_logs']: a JSON array of entries,
    or text that [JSON.parse] rejects or that is not an array (both make
    the code throw before [setItem]). *)
Inductive stored := Parsed (l : list entry) | Unreadable.

Record World := mkWorld {
  store : option stored;          (** [AsyncStorage.getItem('error_logs')] *)
  get_ok : bool;                  (** [getItem] resolves *)
  set_ok : bool;                  (** [setItem] resolves *)
  clock : Z;                      (** [new Date()] *)
  sentry_ok : bool;               (** [Sentry.captureException] returns *)
  sentry_calls : list jsval;      (** errors passed to [captureException] *)
  alerts : list (string * string);(** [Alert.alert] calls *)
  console : list string           (** [console.error] first arguments *)
}.

Inductive hres (A : Type) := HOk (a : A) | HThrow.
Arguments HOk {A} a.
Arguments HThrow {A}.

(** Synchronous JavaScript with exceptions over the world. *)
Definition H (A : Type) : Type := World -> hres A * World.

Definition hret {A} (a : A) : H A := fun w => (HOk a, w).
Definition hbind {A B} (m : H A) (k : A -> H B) : H B :=
  fun w => match m w with (HOk a, w1) => k a w1 | (HThrow, w1) => (HThrow, w1) end.
Definition hthrow {A} : H A := fun w => (HThrow, w).
Definition htry (m : H unit) (h : H unit) : H unit :=
  fun w => match m w with (HThrow, w1) => h w1 | r => r end.

Local Notation "'let%' x ':=' m 'in' k" := (hbind m (fun x => k))
  (at level 200, x name, m at level 100, k at level 200).
Local Notation "m >>> k" := (hbind m (fun _ => k)) (at level 100, right associativity).

Definition console_error (s : string) : H unit :=
  fun w => (HOk tt, mkWorld (store w) (get_ok w) (set_ok w) (clock w) (sentry_ok w)
                          (sentry_calls w) (alerts w) (console w ++ [s])).

Definition alert (title body : string) : H unit :=
  fun w => (HOk tt, mkWorld (store w) (get_ok w) (set_ok w) (clock w) (sentry_ok w)
                          (sentry_calls w) (alerts w ++ [(title, body)]) (console w)).

(** [Sentry.captureException(error)]: the call reaches the SDK, which may
    throw. *)
Definition captureException (e : jsval) : H unit :=
  fun w =>
    let w1 := mkWorld (store w) (get_ok w) (set_ok w) (clock w) (sentry_ok w)
                      (sentry_calls w ++ [e]) (alerts w) (console w) in
    if sentry_ok w then (HOk tt, w1) else (HThrow, w1).

Definition getItem : H (option stored) :=
  fun w => if get_ok w then (HOk (store w), w) else (HThrow, w).

Definition setItem (l : list entry) : H unit :=
  fun w => if set_ok w
           then (HOk tt, mkWorld (Some (Parsed l)) (get_ok w) (set_ok w) (clock w)
                               (sentry_ok w) (sentry_calls w) (alerts w) (console w))
           else (HThrow, w).

Definition date_now : H Z := fun w => (HOk (clock w), w).

(** [logs ? JSON.parse(logs) : []] *)
Definition parse_logs (logs : option stored) : H (list entry) :=
  match logs with
  | None => hret []
  | Some (Parsed l) => hret l
  | Some Unreadable => hthrow
  end.

(** [error.message || String(error)]; reading a property of [null] or
    [undefined] throws a [TypeError]. *)
Definition message_of (e : jsval) : H string :=
  match e with
  | JUndefined | JNull => hthrow
  | JObj m _ r => hret (if String.eqb m "" then r else m)
  | JPrim r _ => hret r
  end.

(** [error.stack || 'No stack trace'] *)
Definition stack_of (e : jsval) : H string :=
  match e with
  | JUndefined | JNull => hthrow
  | JObj _ s _ => hret (if String.eqb s "" then "No stack trace" else s)
  | JPrim _ _ => hret "No stack trace"
  end.

(** [arr.slice(-n)] *)
Definition slice_last (n : nat) {A} (l : list A) : list A :=
  skipn (List.length l - n)%nat l.

Definition logErrorToStorage (error : jsval) (ctx : string) : H unit :=
  htry
    (let% logs := getItem in
     let% errorLogs := parse_logs logs in
     let% ts := date_now in
     let% msg := message_of error in
     let% stk := stack_of error in
     setItem (slice_last 50%nat (errorLogs ++ [mkEntry ts ctx msg stk])))
    (console_error "Failed to log error to storage:").

Definition handleGlobalError (env : Env) (error : jsval) (isFatal : bool) : H unit :=
  console_error "Global error caught:" >>>
  logErrorToStorage error (if isFatal then "Fatal Error" else "Non-Fatal Error") >>>
  (if sentry_dsn env
   then htry (captureException error) (console_error "Sentry error:")
   else hret tt) >>>
  (if isFatal && negb (dev env)
   then console_error "Fatal error prevented app crash"
   else hret tt).

(** An [unhandledrejection] event: its [reason], the event being an
    object. *)
Record rejection_event := mkRejection { reason : jsval }.

Definition event_value : jsval := JObj "" "" "[object PromiseRejectionEvent]".

Definition handleUnhandledRejection (env : Env) (event : rejection_event) : H unit :=
  let error := if truthy (reason event) then reason event else event_value in
  console_error "Unhandled promise rejection:" >>>
  logErrorToStorage error "Unhandled Promise Rejection" >>>
  (if sentry_dsn env
   then htry (captureException error) (console_error "Sentry error:")
   else hret tt) >>>
  (if dev env
   then let% msg := message_of error in alert "Unhandled Error" msg
   else hret tt).

(** What happens in the process; the handlers installed by the effect.  Only
    [handleGlobalError] is registered, through [ErrorUtils.setGlobalHandler]
    when [ErrorUtils] is defined; [handleUnhandledRejection] is never
    registered (lines 174-181). *)
Inductive occurrence :=
| UncaughtError (e : jsval) (isFatal : bool)
| UnhandledRejection (ev : rejection_event).

Definition capture (env : Env) (errorUtilsDefined : bool) (o : occurrence) : H unit :=
  match o with
  | UncaughtError e isFatal =>
      if errorUtilsDefined then handleGlobalError env e isFatal else hret tt
  | UnhandledRejection _ => hret tt
  end.

Definition stored_log (w : World) : list entry :=
  match store w with Some (Parsed l) => l | _ => [] end.

End ErrorCapture.

(** ** Executions of the polling loop

    [poll_exec ac w n w']: started with [authWaitTime = w], the loop of
    lines 294-297 runs [n] iterations and leaves with [authWaitTime = w']. *)
Inductive poll_exec (ac : bool) : Z -> nat -> Z -> Prop :=
| poll_exit w : poll_cond ac w = false -> poll_exec ac w 0 w
| poll_iter w n w' :
    poll_cond ac w = true ->
    poll_exec ac (w + authCheckInterval) n w' ->
    poll_exec ac w (S n) w'.

(** ** Concrete launches *)

(** A development build, every service answering. *)
Definition env_dev : Env :=
  mkEnv true false UpToDate true 0 0 true 50 true 100 true.

(** A development build whose connectivity probe rejects after 200 ms. *)
Definition env_dev_offline_probe : Env :=
  mkEnv true false UpToDate true 0 0 false 200 true 100 true.

(** A production build for which an update is available. *)
Definition env_prod_update : Env :=
  mkEnv false true UpdateAvailable true 30 400 true 50 true 100 true.

(** The Auth Service restores a signed-in user 100 ms after mount. *)
Definition user_at_100 : list (Z * auth_report) := [(100, AuthUser)].

Definition log_within_cap (w : ErrorCapture.World) : Prop :=
  match ErrorCapture.store w with
  | Some (ErrorCapture.Parsed l) => (List.length l <= 50)%nat
  | _ => True
  end.

(** A sequence of [logErrorToStorage] calls, each one completing before the
    next starts. *)
Definition run_appends (appends : list (ErrorCapture.jsval * string))
    (w : ErrorCapture.World) : ErrorCapture.World :=
  fold_left (fun w0 ec => snd (ErrorCapture.logErrorToStorage (fst ec) (snd ec) w0))
    appends w.

Definition empty_world : ErrorCapture.World :=
  ErrorCapture.mkWorld None true true 1000 true [] [] [].

Definition boom : ErrorCapture.jsval :=
  ErrorCapture.JObj "boom"%string "at f"%string "Error: boom"%string.

(** A production build whose update check rejects. *)
Definition env_prod_check_fails : Env :=
  mkEnv false true CheckFails true 30 400 true 50 true 100 true.

(** A world whose stored log is not a JSON array. *)
Definition corrupt_world : ErrorCapture.World :=
  ErrorCapture.mkWorld (Some ErrorCapture.Unreadable) true true 1000 true [] [] [].

(** ** Background update listener (App.js, lines 72-117) *)

Module BackgroundUpdate.

Local Open Scope string_scope.

(** What the listener effect does that can be observed. *)
Inductive bg_event :=
| BgCheck                                 (** [Updates.checkForUpdateAsync()] *)
| BgFetch                                 (** [Updates.fetchUpdateAsync()] *)
| BgConsole (s : string)                  (** [console.log] / [console.error] *)
| BgAlert (title : string) (buttons : list string)  (** [Alert.alert] *)
| BgReload.                               (** [Updates.reloadAsync()] *)

(** [Updates.UpdateEventType] *)
Inductive update_event_type := UPDATE_AVAILABLE | NO_UPDATE_AVAILABLE | ERROR.

(** The two buttons of the alert: "Later" and "Restart Now". *)
Inductive alert_button := Later | RestartNow.

(** The answers of the Update Service to one background check, and the
    button the user presses in the alert ([None]: none yet). *)
Record UEnv := mkUEnv {
  u_update : update_check;
  u_fetch_ok : bool;
  u_choice : option alert_button
}.

(** A writer with exceptions: [None] is a thrown error. *)
Definition B (A : Type) : Type := list bg_event -> option A * list bg_event.

Definition bret {A} (a : A) : B A := fun l => (Some a, l).
Definition bbind {A C} (m : B A) (k : A -> B C) : B C :=
  fun l => match m l with (Some a, l1) => k a l1 | (None, l1) => (None, l1) end.
Definition bemit (e : bg_event) : B unit := fun l => (Some tt, (l ++ [e])%list).
Definition bthrow {A} : B A := fun l => (None, l).
Definition btry (m : B unit) (h : B unit) : B unit :=
  fun l => match m l with (None, l1) => h l1 | r => r end.

Local Notation "'let~' x ':=' m 'in' k" := (bbind m (fun x => k))
  (at level 200, x name, m at level 100, k at level 200).
Local Notation "m >>= k" := (bbind m (fun _ => k)) (at level 100, right associativity).

Definition checkForUpdateAsync (ue : UEnv) : B bool :=
  bemit BgCheck >>=
  match u_update ue with
  | UpToDate => bret false
  | UpdateAvailable => bret true
  | CheckFails => bthrow
  end.

Definition fetchUpdateAsync (ue : UEnv) : B unit :=
  bemit BgFetch >>= (if u_fetch_ok ue then bret tt else bthrow).

(** The alert's buttons: "Later" (cancel, no handler) and "Restart Now",
    whose [onPress] awaits [Updates.reloadAsync()]. *)
Definition update_alert (ue : UEnv) : B unit :=
  bemit (BgAlert "Update Available" ["Later"; "Restart Now"]) >>=
  match u_choice ue with
  | Some RestartNow => bemit BgReload
  | _ => bret tt
  end.

Definition checkForUpdatesOnResume (ue : UEnv) : B unit :=
  btry
    (let~ available := checkForUpdateAsync ue in
     if available then
       bemit (BgConsole "Update available in background, fetching...") >>=
       fetchUpdateAsync ue >>=
       update_alert ue
     else bret tt)
    (bemit (BgConsole "Background update check failed:")).

(** The callback given to [Updates.addListener]. *)
Definition on_update_event (ty : update_event_type) (ue : UEnv) : B unit :=
  match ty with
  | UPDATE_AVAILABLE =>
      bemit (BgConsole "Update available event triggered") >>=
      checkForUpdatesOnResume ue
  | _ => bret tt
  end.

(** Reloading restarts the process: nothing after it happens. *)
Fixpoint upto_bg_reload (l : list bg_event) : list bg_event :=
  match l with
  | [] => []
  | BgReload :: _ => [BgReload]
  | e :: r => e :: upto_bg_reload r
  end.

(** The effect over a sequence of Update Service events: in a development
    build it returns before subscribing.  Each callback's check runs to its
    end before the next event is delivered. *)
Definition bg_session (isDev : bool) (evs : list (update_event_type * UEnv)) : list bg_event :=
  if isDev then []
  else upto_bg_reload
         (snd (fold_left (fun acc ev => bbind acc (fun _ => on_update_event (fst ev) (snd ev)))
                 evs (bret tt) [])).

(** [m] only appends to the log, and it appends [BgReload] only when [P]
    holds. *)
Definition bg_extends (P : Prop) {A} (m : B A) : Prop :=
  forall l, exists l', snd (m l) = (l ++ l')%list /\ (In BgReload l' -> P).

End BackgroundUpdate.

(** The user presses "Restart Now" after a successful background download. *)
Definition ue_restart : BackgroundUpdate.UEnv :=
  BackgroundUpdate.mkUEnv UpdateAvailable true (Some BackgroundUpdate.RestartNow).

(** The download of a background update fails. *)
Definition ue_fetch_fails : BackgroundUpdate.UEnv :=
  BackgroundUpdate.mkUEnv UpdateAvailable false None.

(** ** Properties of computations of [initializeApp] *)

(** [m] emits no event satisfying [bad]. *)
Definition avoids {A} (bad : event -> bool) (m : M A) : Prop :=
  forall t te, In te (run_events m t) -> bad (snd te) = false.

(** When [m] ends normally, its last event is [SetIsReady]. *)
Definition ends_ready {A} (m : M A) : Prop :=
  forall t a, run_outcome m t = Done a ->
  exists pre t', run_events m t = pre ++ [(t', SetIsReady)].

(** When [m] ends normally, it has emitted [e]. *)
Definition emits_when_done {A} (e : event) (m : M A) : Prop :=
  forall t a, run_outcome m t = Done a -> In e (map snd (run_events m t)).

(** [m] ends in [Reloaded] only after emitting [Reload]. *)
Definition reload_visible {A} (m : M A) : Prop :=
  forall t, run_outcome m t = Reloaded -> In Reload (map snd (run_events m t)).

Definition is_update_call (e : event) : bool :=
  match e with CheckForUpdate | FetchUpdate | Reload => true | _ => false end.

Definition is_route_write (e : event) : bool :=
  match e with SetInitialRouteName _ => true | _ => false end.

Definition is_main_route (e : event) : bool :=
  match e with SetInitialRouteName MainApp => true | _ => false end.

Definition is_capture (e : event) : bool :=
  match e with CaptureException => true | _ => false end.

(** The routes written by the auth listener when the Auth Service reports
    [a]. *)
Definition auth_route (a : auth_report) : route :=
  match a with AuthUser => MainApp | _ => Login end.

(** [m] has emitted [e] whenever it does not end in the reload. *)
Definition emits_unless_reloaded {A} (e : event) (m : M A) : Prop :=
  forall t, run_outcome m t <> Reloaded -> In e (map snd (run_events m t)).

(** The same launch environment with [registerForPushNotifications]
    resolving ([true]) or rejecting ([false]). *)
Definition with_push_ok (env : Env) (b : bool) : Env :=
  mkEnv (dev env) (sentry_dsn env) (update env) (fetch_ok env) (d_check env) (d_fetch env)
        (net_ok env) (d_net env) b (d_push env) (listeners_ok env).

(** * Theorems *)

(** ** The polling loop *)

Lemma poll_exec_shape (ac : bool) (w : Z) (n : nat) (w' : Z) :
  poll_exec ac w n w' ->
  w' = w + authCheckInterval * Z.of_nat n /\
  (n = 0%nat \/ w + authCheckInterval * (Z.of_nat n - 1) < maxAuthWait).
Proof.
  induction 1 as [w Hc | w n w' Hc _ [IHeq IHlt]].
  - split; [lia | now left].
  - unfold poll_cond in Hc. apply andb_prop in Hc as [_ Hlt].
    apply Z.ltb_lt in Hlt. unfold authCheckInterval, maxAuthWait in *.
    split; [lia | right; lia].
Qed.

Lemma poll_exec_exists (ac : bool) (k : nat) (w : Z) :
  maxAuthWait - w <= authCheckInterval * Z.of_nat k ->
  exists n w', poll_exec ac w n w'.
Proof.
  revert w. induction k as [|k IH]; intros w Hk.
  - exists 0%nat, w. apply poll_exit. unfold poll_cond.
    destruct ac; [reflexivity|]. simpl. apply Z.ltb_ge. lia.
  - destruct (poll_cond ac w) eqn:Hc.
    + destruct (IH (w + authCheckInterval)) as (n & w' & Hex).
      { unfold authCheckInterval in *. lia. }
      exists (S n), w'. now apply poll_iter.
    + exists 0%nat, w. now apply poll_exit.
Qed.

Lemma poll_loop_exec (ac : bool) (w : Z) (n : nat) (w' : Z) (fuel : nat) (t : Z) :
  poll_exec ac w n w' -> (n < fuel)%nat ->
  run_outcome (poll_loop ac w fuel) t = Done w' /\
  run_end (poll_loop ac w fuel) t = t + authCheckInterval * Z.of_nat n.
Proof.
  intros Hex. revert fuel t.
  induction Hex as [w Hc | w n w' Hc _ IH]; intros fuel t Hf.
  - destruct fuel as [|f]; [lia|].
    unfold run_outcome, run_end. simpl. rewrite Hc. cbn. split; [reflexivity | lia].
  - destruct fuel as [|f]; [lia|].
    destruct (IH f (t + authCheckInterval)) as [Ho He]; [lia|].
    unfold run_outcome, run_end in *.
    change (poll_loop ac w (S f)) with
      (if poll_cond ac w
       then (sleep authCheckInterval ;; poll_loop ac (w + authCheckInterval) f)
       else ret w).
    rewrite Hc. unfold bind, sleep.
    destruct (poll_loop ac (w + authCheckInterval) f (t + authCheckInterval))
      as [[r t2] l2] eqn:E.
    cbn [fst snd] in *. subst. split; [reflexivity | lia].
Qed.

(** C9: for every value of [authChecked] captured by the run, including
    [false] when the Auth Service never answers, the polling loop has an
    execution, every execution runs at most 50 iterations of 100 ms, and the
    embedded loop ends after that many iterations with its result: the run
    then proceeds to the next step. *)
Theorem auth_wait_bounded (ac : bool) (t : Z) :
  (forall n w', poll_exec ac 0 n w' -> (n <= 50)%nat) /\
  exists n w',
    poll_exec ac 0 n w' /\ (n <= 50)%nat /\
    run_outcome (poll_loop ac 0 poll_fuel) t = Done w' /\
    run_end (poll_loop ac 0 poll_fuel) t = t + authCheckInterval * Z.of_nat n.
Proof.
  assert (Hb : forall n w', poll_exec ac 0 n w' -> (n <= 50)%nat).
  { intros n w' Hex. apply poll_exec_shape in Hex as [_ [Hn | Hlt]]; [lia|].
    unfold authCheckInterval, maxAuthWait in Hlt. lia. }
  split; [exact Hb|].
  destruct (poll_exec_exists ac 50 0) as (n & w' & Hex).
  { unfold maxAuthWait, authCheckInterval. lia. }
  exists n, w'. split; [exact Hex|]. split; [now apply Hb with w'|].
  apply poll_loop_exec; [exact Hex|].
  apply Hb in Hex. unfold poll_fuel. simpl. lia.
Qed.

(** ** Minimum display time *)

(** C7: with [elapsed = Date.now() - startTime] at the pacing step, the
    step sleeps exactly [2000 - elapsed] ms (after showing "Almost
    ready...") when [elapsed < 2000], and emits nothing and does not wait
    otherwise; [setIsReady(true)] follows it in [initializeApp]. *)
Theorem min_display_pacing (startTime t : Z) :
  let elapsed := t - startTime in
  run_events (min_display_wait startTime) t =
    (if elapsed <? minDisplayTime
     then [(t, SetLoadingMessage "Almost ready..."%string);
           (t, Sleep (minDisplayTime - elapsed))]
     else []) /\
  run_end (min_display_wait startTime) t =
    (if elapsed <? minDisplayTime then t + (minDisplayTime - elapsed) else t).
Proof.
  cbv zeta. unfold run_events, run_end, min_display_wait, bind, now.
  destruct (Z.ltb_spec (t - startTime) minDisplayTime) as [Hlt | Hge].
  - rewrite Z.max_r by lia.
    replace (minDisplayTime - (t - startTime) >? 0) with true
      by (symmetry; apply Z.gtb_lt; lia).
    cbn. split; reflexivity.
  - rewrite Z.max_l by lia. cbn. split; reflexivity.
Qed.

(** ** OTA update at startup *)

(** Computations that never invoke [reloadAsync]. *)
Definition no_reload {A} (m : M A) : Prop :=
  forall t, ~ In Reload (map snd (run_events m t)).

Lemma no_reload_bind {A B} (m : M A) (k : A -> M B) :
  no_reload m -> (forall a, no_reload (k a)) -> no_reload (bind m k).
Proof.
  intros Hm Hk t. unfold run_events, bind. specialize (Hm t). unfold run_events in Hm.
  destruct (m t) as [[[a| |] t1] l1]; cbn [snd] in *; [|exact Hm|exact Hm].
  specialize (Hk a t1). unfold run_events in Hk.
  destruct (k a t1) as [[r t2] l2]. cbn [snd] in *.
  rewrite map_app, in_app_iff. tauto.
Qed.

Lemma no_reload_try {A} (m h : M A) :
  no_reload m -> no_reload h -> no_reload (try_catch m h).
Proof.
  intros Hm Hh t. unfold run_events, try_catch. specialize (Hm t). unfold run_events in Hm.
  destruct (m t) as [[[a| |] t1] l1]; cbn [snd] in *; try exact Hm.
  specialize (Hh t1). unfold run_events in Hh.
  destruct (h t1) as [[r t2] l2]. cbn [snd] in *.
  rewrite map_app, in_app_iff. tauto.
Qed.

Lemma no_reload_emit (e : event) : e <> Reload -> no_reload (emit e).
Proof. intros He t [H|[]]. exact (He H). Qed.

Lemma no_reload_call (e : event) (d : Z) : e <> Reload -> no_reload (call_ext e d).
Proof. intros He t [H|[]]. exact (He H). Qed.

Lemma no_reload_ret {A} (a : A) : no_reload (ret a).
Proof. intros t []. Qed.

Lemma no_reload_throw {A} : no_reload (@throw A).
Proof. intros t []. Qed.

Lemma no_reload_sleep (ms : Z) : no_reload (sleep ms).
Proof. intros t [H|[]]. discriminate. Qed.

Lemma no_reload_now : no_reload now.
Proof. intros t []. Qed.

Lemma no_reload_fetch_fails (env : Env) :
  fetch_ok env = false -> no_reload (fetchUpdateAsync env ;; @reload unit).
Proof.
  intros Hf t. unfold run_events, fetchUpdateAsync, bind, call_ext. rewrite Hf.
  cbn. intros [H|[]]. discriminate.
Qed.

Create HintDb noreload.
#[local] Hint Resolve no_reload_bind no_reload_try no_reload_emit no_reload_call
  no_reload_ret no_reload_throw no_reload_sleep no_reload_now : noreload.

Ltac no_reload_auto :=
  repeat first
    [ solve [auto with noreload]
    | apply no_reload_fetch_fails; reflexivity
    | match goal with |- no_reload (let _ := _ in _) => cbv zeta end
    | apply no_reload_bind; [|intro]
    | apply no_reload_try
    | apply no_reload_emit; discriminate
    | apply no_reload_call; discriminate
    | match goal with |- no_reload (if ?b then _ else _) => destruct b end
    | match goal with |- no_reload (match ?x with _ => _ end) => destruct x end ].

Lemma no_reload_poll (ac : bool) (w : Z) (fuel : nat) : no_reload (poll_loop ac w fuel).
Proof.
  revert w. induction fuel as [|f IH]; intro w; cbn [poll_loop]; no_reload_auto.
Qed.

Lemma no_reload_pacing (startTime : Z) : no_reload (min_display_wait startTime).
Proof. unfold min_display_wait. no_reload_auto. Qed.

#[local] Hint Resolve no_reload_poll no_reload_pacing : noreload.


(** C8: in a production build whose update check reports an available
    update, whenever [reloadAsync] is invoked the run has called
    [fetchUpdateAsync] just before it and emits nothing after it: the whole
    run is the update path, ending in the reload (which restarts the
    process). *)
Theorem startup_update_fetch_then_reload (env : Env) (ac : bool)
    (route0 : option route) (t : Z) :
  dev env = false ->
  update env = UpdateAvailable ->
  In Reload (map snd (run_events (initializeApp env ac route0) t)) ->
  map snd (run_events (initializeApp env ac route0) t) =
    [SetLoadingMessage "Loading assets..."%string;
     SetLoadingMessage "Checking for updates..."%string;
     CheckForUpdate;
     SetLoadingMessage "Downloading update..."%string;
     FetchUpdate;
     Reload] /\
  run_outcome (initializeApp env ac route0) t = Reloaded.
Proof.
  intros Hdev Hupd Hin.
  destruct env as [dv dsn upd fok dc df nok dn pok dp lok]; cbn in Hdev, Hupd; subst.
  destruct fok.
  - split; reflexivity.
  - exfalso. revert Hin. fold (no_reload (initializeApp (mkEnv false dsn UpdateAvailable false dc df nok dn pok dp lok) ac route0)).
    unfold initializeApp, ota_update_check, checkForUpdateAsync, registerForPushNotifications,
      netinfo_fetch, setupNotificationListeners. cbn [dev update sentry_dsn negb].
    no_reload_auto.
Qed.

(** ** The startup effect and its re-runs *)

Lemma authChecked_writes_listener (ready_at : Z -> bool) (h : bool)
    (reports : list (Z * auth_report)) :
  authChecked_writes (auth_listener ready_at h reports) =
  map (fun r => (fst r, true)) reports.
Proof.
  revert h. induction reports as [|[t a] rest IH]; intro h; [reflexivity|].
  cbn [auth_listener]. destruct (negb h && negb (ready_at t)); cbn; now rewrite IH.
Qed.

Lemma dep_changes_steady {A : Type} (ws : list (Z * A)) :
  dep_changes true (map (fun r => (fst r, true)) ws) = [].
Proof. induction ws as [|w ws IH]; [reflexivity|exact IH]. Qed.

(** C4 (as the code is): the [initializeApp] effect depends on
    [authChecked], which is only ever set to [true]; it runs at mount
    (capturing [authChecked = false]) and once more, capturing
    [authChecked = true], at the first Auth Service callback, and never a
    third time. *)
Theorem startup_runs_at_most_twice (env : Env) (reports : list (Z * auth_report)) :
  launch_runs env reports =
    (0, false) :: match reports with [] => [] | (t, _) :: _ => [(t, true)] end.
Proof.
  unfold launch_runs, launch_callbacks, effect_runs.
  rewrite authChecked_writes_listener.
  destruct reports as [|[t a] rest]; [reflexivity|].
  cbn [map fst dep_changes Bool.eqb]. now rewrite dep_changes_steady.
Qed.

(** C4 as stated fails: a launch in which the Auth Service reports a user
    after 100 ms runs the startup sequence twice. *)
Lemma startup_runs_twice_cex :
  launch_runs env_dev user_at_100 = [(0, false); (100, true)] /\
  List.length (launch_runs env_dev user_at_100) = 2%nat.
Proof. split; vm_compute; reflexivity. Qed.

(** ** The routing decision of a launch *)

(** C1: in a development launch where the Auth Service reports a user at
    100 ms, [initialRouteName] is written twice with different values: to
    [MainApp] by the listener, then to [Login] at 5550 ms by the first run,
    whose closure still holds [initialRouteName = null] (and which polled a
    stale [authChecked = false] for the full 5000 ms), after the second run
    set [isReady] at 2100 ms. *)
Theorem initial_route_rewritten_after_ready :
  route_writes (launch env_dev user_at_100) = [(100, MainApp); (5550, Login)] /\
  ready_times (launch env_dev user_at_100) = [2100; 5650].
Proof. split; vm_compute; reflexivity. Qed.

(** C2: a user reported at 100 ms, well inside the 5000 ms auth wait, still
    ends the launch with [initialRouteName = 'Login']. *)
Theorem signed_in_launch_ends_on_login :
  initialRouteName (final_state (launch env_dev user_at_100)) = Some Login /\
  isReady (final_state (launch env_dev user_at_100)) = true /\
  initialRouteName (state_upto 2100 (launch env_dev user_at_100)) = Some MainApp.
Proof. vm_compute. repeat split. Qed.

(** C6: when the connectivity probe rejects after 200 ms, the catch handler
    of the first run (closure: [initialRouteName = null]) sets the route to
    [Login] although the listener had already set it to [MainApp] at
    100 ms. *)
Theorem startup_catch_overrides_route :
  map snd (run_events (initializeApp env_dev_offline_probe false None) 0) =
    [SetLoadingMessage "Loading assets..."%string; NetInfoFetch;
     SetInitialRouteName Login; SetIsReady] /\
  initialRouteName (state_upto 199 (launch env_dev_offline_probe user_at_100)) = Some MainApp /\
  route_writes (launch env_dev_offline_probe user_at_100) = [(100, MainApp); (200, Login)] /\
  initialRouteName (final_state (launch env_dev_offline_probe user_at_100)) = Some Login.
Proof. vm_compute. repeat split. Qed.

(** ** Error capture *)

Section ErrorCaptureProofs.
Import ErrorCapture.

Lemma htry_total (m h : H unit) (w : World) :
  (forall w0, fst (h w0) = HOk tt) -> fst (htry m h w) = HOk tt.
Proof.
  intros Hh. unfold htry. destruct (m w) as [[[]|] w1]; [reflexivity | apply Hh].
Qed.

Lemma hbind_total (m : H unit) (k : unit -> H unit) (w : World) :
  (forall w0, fst (m w0) = HOk tt) -> (forall w0, fst (k tt w0) = HOk tt) ->
  fst (hbind m k w) = HOk tt.
Proof.
  intros Hm Hk. unfold hbind. specialize (Hm w).
  destruct (m w) as [[[]|] w1]; cbn in Hm; [apply Hk | discriminate].
Qed.

Lemma console_error_total (s : string) (w : World) : fst (console_error s w) = HOk tt.
Proof. reflexivity. Qed.

Lemma log_total (e : jsval) (ctx : string) (w : World) :
  fst (logErrorToStorage e ctx w) = HOk tt.
Proof. apply htry_total. intro. apply console_error_total. Qed.

Lemma sentry_branch_total (b : bool) (e : jsval) (w : World) :
  fst ((if b then htry (captureException e) (console_error "Sentry error:"%string)
        else hret tt) w) = HOk tt.
Proof. destruct b; [apply htry_total; intro; apply console_error_total | reflexivity]. Qed.

(** C10: the capture path never throws: [logErrorToStorage] catches every
    failure of [getItem], [JSON.parse], the entry construction and
    [setItem]; both handlers guard [Sentry.captureException] with
    try/catch, so they return normally for every error, every rejection
    event and every state of storage and of the reporter. *)
Theorem capture_path_total (env : Env) :
  (forall e ctx w, fst (logErrorToStorage e ctx w) = HOk tt) /\
  (forall e isFatal w, fst (handleGlobalError env e isFatal w) = HOk tt) /\
  (forall ev w, fst (handleUnhandledRejection env ev w) = HOk tt).
Proof.
  split; [exact log_total|]. split.
  - intros e isFatal w. unfold handleGlobalError.
    apply hbind_total; [intro; apply console_error_total|]. intro w1.
    apply hbind_total; [intro; apply log_total|]. intro w2.
    apply hbind_total; [intro; apply sentry_branch_total|]. intro w3.
    destruct (isFatal && negb (dev env)); reflexivity.
  - intros [r] w. unfold handleUnhandledRejection. cbn [reason].
    apply hbind_total; [intro; apply console_error_total|]. intro w1.
    apply hbind_total; [intro; apply log_total|]. intro w2.
    apply hbind_total; [intro; apply sentry_branch_total|]. intro w3.
    destruct (dev env); [|reflexivity].
    destruct r as [| |m s rp|rp b]; cbn; try reflexivity.
    destruct b; reflexivity.
Qed.

End ErrorCaptureProofs.

Section ErrorLogProofs.
Import ErrorCapture.

Lemma slice_last_length {A : Type} (n : nat) (l : list A) :
  (List.length (slice_last n l) <= n)%nat.
Proof. unfold slice_last. rewrite length_skipn. lia. Qed.

(** One call either leaves the stored value alone (a failure was caught)
    or stores the last 50 entries of some list. *)
Lemma log_store_effect (e : jsval) (ctx : string) (w : World) :
  store (snd (logErrorToStorage e ctx w)) = store w \/
  exists l, store (snd (logErrorToStorage e ctx w)) = Some (Parsed (slice_last 50 l)).
Proof.
  destruct w as [st g s c so sc al co].
  unfold logErrorToStorage, htry, hbind, getItem, parse_logs, date_now, setItem.
  cbn [get_ok set_ok store clock].
  destruct g; [|left; reflexivity].
  destruct st as [[l|]|]; [| left; reflexivity |];
    (destruct e as [| |m sk r|r b]; cbn -[slice_last];
       [left; reflexivity | left; reflexivity | |]);
    destruct s; cbn -[slice_last]; eauto.
Qed.

(** A successful append: non-null error, readable log, working storage. *)
Lemma log_appends (e : jsval) (ctx : string) (w : World) :
  get_ok w = true -> set_ok w = true -> store w <> Some Unreadable ->
  e <> JNull -> e <> JUndefined ->
  exists msg stk,
    message_of e w = (HOk msg, w) /\ stack_of e w = (HOk stk, w) /\
    logErrorToStorage e ctx w =
      (HOk tt, mkWorld (Some (Parsed (slice_last 50 (stored_log w ++
                                        [mkEntry (clock w) ctx msg stk]))))
                 (get_ok w) (set_ok w) (clock w) (sentry_ok w)
                 (sentry_calls w) (alerts w) (console w)).
Proof.
  destruct w as [st g s c so sc al co]; cbn [get_ok set_ok store].
  intros -> -> Hst Hn Hu.
  destruct e as [| |m sk r|r b]; [congruence | congruence | |];
    (destruct st as [[l|]|]; [| congruence |]);
    eexists; eexists; (split; [reflexivity|]); (split; [reflexivity|]); reflexivity.
Qed.

Lemma slice_last_full {A : Type} (l : list A) (x : A) :
  List.length l = 50%nat -> slice_last 50 (l ++ [x]) = tl l ++ [x].
Proof.
  intros Hl. destruct l as [|y l]; [discriminate|].
  unfold slice_last. rewrite length_app. cbn [List.length] in *.
  replace (S (List.length l) + 1 - 50)%nat with 1%nat by lia. reflexivity.
Qed.

(** C5: every sequence of appends keeps the stored log within 50 entries,
    and an append to a full log of 50 drops exactly its first (oldest)
    entry and keeps the other 49 in order, the new entry last. *)
Theorem error_log_cap_fifo :
  (forall (appends : list (jsval * string)) (w : World),
     log_within_cap w -> log_within_cap (run_appends appends w)) /\
  (forall (e : jsval) (ctx : string) (w : World) (l : list entry),
     get_ok w = true -> set_ok w = true -> store w = Some (Parsed l) ->
     List.length l = 50%nat -> e <> JNull -> e <> JUndefined ->
     exists en,
       store (snd (logErrorToStorage e ctx w)) = Some (Parsed (tl l ++ [en])) /\
       timestamp en = clock w /\ context en = ctx).
Proof.
  split.
  - intros appends. induction appends as [|[e ctx] rest IH]; intros w Hw; [exact Hw|].
    cbn [run_appends fold_left]. apply IH. cbn [fst snd].
    unfold log_within_cap in *.
    destruct (log_store_effect e ctx w) as [-> | [l ->]]; [exact Hw|].
    apply slice_last_length.
  - intros e ctx w l Hg Hs Hst Hl Hn Hu.
    destruct (log_appends e ctx w Hg Hs) as (msg & stk & _ & _ & Happ);
      [rewrite Hst; discriminate | exact Hn | exact Hu |].
    exists (mkEntry (clock w) ctx msg stk). rewrite Happ. cbn [snd store].
    unfold stored_log. rewrite Hst, slice_last_full by exact Hl.
    split; [reflexivity | split; reflexivity].
Qed.

End ErrorLogProofs.

(** ** The installed capture *)

Section CaptureProofs.
Import ErrorCapture.

(** C3 as stated fails: an unhandled promise rejection reaches no handler
    of this code ([handleUnhandledRejection] is never registered), so no
    Error Log Entry is appended and nothing is sent to the reporter. *)
Lemma unhandled_rejection_not_captured :
  capture env_prod_update true (UnhandledRejection (mkRejection boom)) empty_world
    = (HOk tt, empty_world) /\
  stored_log empty_world = [].
Proof. split; reflexivity. Qed.

(** C3 (as the code is): the capture installed through
    [ErrorUtils.setGlobalHandler] handles uncaught errors.  For a non-null
    error, with working storage and a readable log, it returns normally,
    appends an entry (time, context "Fatal Error" / "Non-Fatal Error",
    message, stack) at the end of the log capped at 50, passes the error to
    [Sentry.captureException] exactly when the DSN is configured, and in a
    production build a fatal error is only reported on the console. *)
Theorem uncaught_error_capture (env : Env) (e : jsval) (isFatal : bool) (w : World) :
  get_ok w = true -> set_ok w = true -> store w <> Some Unreadable ->
  e <> JNull -> e <> JUndefined ->
  exists msg stk w',
    capture env true (UncaughtError e isFatal) w = (HOk tt, w') /\
    message_of e w = (HOk msg, w) /\ stack_of e w = (HOk stk, w) /\
    store w' = Some (Parsed (slice_last 50 (stored_log w ++
                 [mkEntry (clock w)
                    (if isFatal then "Fatal Error" else "Non-Fatal Error")%string
                    msg stk]))) /\
    sentry_calls w' = sentry_calls w ++ (if sentry_dsn env then [e] else []) /\
    (isFatal = true -> dev env = false ->
     In "Fatal error prevented app crash"%string (console w')).
Proof.
  destruct w as [st g s c so sc al co];
    cbn [get_ok set_ok store stored_log clock sentry_calls].
  intros -> -> Hst Hn Hu.
  destruct env as [dv dsn upd fok dc df nok dn pok dp lok]; cbn [sentry_dsn dev].
  destruct e as [| |m sk r|r b]; [congruence | congruence | |];
    (destruct st as [[l|]|]; [| congruence |]);
    destruct dsn, so, isFatal, dv; cbn -[slice_last];
    do 3 eexists; (split; [reflexivity|]);
    repeat split; cbn -[slice_last]; rewrite ?app_nil_r; try reflexivity;
    intros H1 H2; try discriminate; rewrite ?in_app_iff; cbn; tauto.
Qed.

End CaptureProofs.

(** ** Witnesses: the theorems with hypotheses at concrete inputs *)

Lemma startup_update_fetch_then_reload_witness :
  dev env_prod_update = false /\ update env_prod_update = UpdateAvailable /\
  In Reload (map snd (run_events (initializeApp env_prod_update false None) 0)) /\
  (map snd (run_events (initializeApp env_prod_update false None) 0) =
    [SetLoadingMessage "Loading assets..."%string;
     SetLoadingMessage "Checking for updates..."%string;
     CheckForUpdate;
     SetLoadingMessage "Downloading update..."%string;
     FetchUpdate;
     Reload] /\
   run_outcome (initializeApp env_prod_update false None) 0 = Reloaded).
Proof.
  assert (H1 : dev env_prod_update = false) by reflexivity.
  assert (H2 : update env_prod_update = UpdateAvailable) by reflexivity.
  assert (H3 : In Reload (map snd (run_events (initializeApp env_prod_update false None) 0)))
    by (vm_compute; tauto).
  split; [exact H1|]. split; [exact H2|]. split; [exact H3|].
  exact (startup_update_fetch_then_reload env_prod_update false None 0 H1 H2 H3).
Defined.

Lemma auth_wait_bounded_witness :
  (forall n w', poll_exec false 0 n w' -> (n <= 50)%nat) /\
  exists n w',
    poll_exec false 0 n w' /\ (n <= 50)%nat /\
    run_outcome (poll_loop false 0 poll_fuel) 0 = Done w' /\
    run_end (poll_loop false 0 poll_fuel) 0 = 0 + authCheckInterval * Z.of_nat n.
Proof. exact (auth_wait_bounded false 0). Defined.

Definition full_log : list ErrorCapture.entry :=
  repeat (ErrorCapture.mkEntry 0 "Non-Fatal Error" "old" "No stack trace")%string 50.

Definition full_world : ErrorCapture.World :=
  ErrorCapture.mkWorld (Some (ErrorCapture.Parsed full_log)) true true 7 true [] [] [].

Lemma error_log_cap_fifo_witness :
  ErrorCapture.get_ok full_world = true /\ ErrorCapture.set_ok full_world = true /\
  ErrorCapture.store full_world = Some (ErrorCapture.Parsed full_log) /\
  List.length full_log = 50%nat /\ boom <> ErrorCapture.JNull /\ boom <> ErrorCapture.JUndefined /\
  exists en,
    ErrorCapture.store (snd (ErrorCapture.logErrorToStorage boom "Fatal Error"%string full_world))
      = Some (ErrorCapture.Parsed (tl full_log ++ [en])) /\
    ErrorCapture.timestamp en = ErrorCapture.clock full_world /\
    ErrorCapture.context en = "Fatal Error"%string.
Proof.
  assert (H1 : ErrorCapture.get_ok full_world = true) by reflexivity.
  assert (H2 : ErrorCapture.set_ok full_world = true) by reflexivity.
  assert (H3 : ErrorCapture.store full_world = Some (ErrorCapture.Parsed full_log)) by reflexivity.
  assert (H4 : List.length full_log = 50%nat) by reflexivity.
  assert (H5 : boom <> ErrorCapture.JNull) by discriminate.
  assert (H6 : boom <> ErrorCapture.JUndefined) by discriminate.
  do 6 (split; [assumption|]).
  exact (proj2 error_log_cap_fifo boom "Fatal Error"%string full_world full_log H1 H2 H3 H4 H5 H6).
Defined.

Lemma uncaught_error_capture_witness :
  ErrorCapture.get_ok empty_world = true /\ ErrorCapture.set_ok empty_world = true /\
  ErrorCapture.store empty_world <> Some ErrorCapture.Unreadable /\
  boom <> ErrorCapture.JNull /\ boom <> ErrorCapture.JUndefined /\
  exists msg stk w',
    ErrorCapture.capture env_prod_update true (ErrorCapture.UncaughtError boom true) empty_world
      = (ErrorCapture.HOk tt, w') /\
    ErrorCapture.message_of boom empty_world = (ErrorCapture.HOk msg, empty_world) /\
    ErrorCapture.stack_of boom empty_world = (ErrorCapture.HOk stk, empty_world) /\
    ErrorCapture.store w' = Some (ErrorCapture.Parsed (ErrorCapture.slice_last 50
        (ErrorCapture.stored_log empty_world ++
         [ErrorCapture.mkEntry (ErrorCapture.clock empty_world)
            (if true then "Fatal Error" else "Non-Fatal Error")%string msg stk]))) /\
    ErrorCapture.sentry_calls w' = ErrorCapture.sentry_calls empty_world ++
      (if sentry_dsn env_prod_update then [boom] else []) /\
    (true = true -> dev env_prod_update = false ->
     In "Fatal error prevented app crash"%string (ErrorCapture.console w')).
Proof.
  assert (H1 : ErrorCapture.get_ok empty_world = true) by reflexivity.
  assert (H2 : ErrorCapture.set_ok empty_world = true) by reflexivity.
  assert (H3 : ErrorCapture.store empty_world <> Some ErrorCapture.Unreadable) by discriminate.
  assert (H4 : boom <> ErrorCapture.JNull) by discriminate.
  assert (H5 : boom <> ErrorCapture.JUndefined) by discriminate.
  do 5 (split; [assumption|]).
  exact (uncaught_error_capture env_prod_update boom true empty_world H1 H2 H3 H4 H5).
Defined.

(** * Further properties of the startup code *)

(** ** Compositional facts about [M] *)

Section Combinators.

Variable bad : event -> bool.

Lemma avoids_bind {A B} (m : M A) (k : A -> M B) :
  avoids bad m -> (forall a, avoids bad (k a)) -> avoids bad (bind m k).
Proof.
  intros Hm Hk t te. unfold run_events, bind. specialize (Hm t). unfold run_events in Hm.
  destruct (m t) as [[[a| |] t1] l1]; cbn [snd] in *; try exact (Hm te).
  specialize (Hk a t1). unfold run_events in Hk.
  destruct (k a t1) as [[r t2] l2]. cbn [snd] in *.
  rewrite in_app_iff. intros [H|H]; [exact (Hm te H) | exact (Hk te H)].
Qed.

Lemma avoids_try {A} (m h : M A) :
  avoids bad m -> avoids bad h -> avoids bad (try_catch m h).
Proof.
  intros Hm Hh t te. unfold run_events, try_catch. specialize (Hm t). unfold run_events in Hm.
  destruct (m t) as [[[a| |] t1] l1]; cbn [snd] in *; try exact (Hm te).
  specialize (Hh t1). unfold run_events in Hh.
  destruct (h t1) as [[r t2] l2]. cbn [snd] in *.
  rewrite in_app_iff. intros [H|H]; [exact (Hm te H) | exact (Hh te H)].
Qed.

Lemma avoids_emit (e : event) : bad e = false -> avoids bad (emit e).
Proof. intros He t te [<-|[]]. exact He. Qed.

Lemma avoids_call (e : event) (d : Z) : bad e = false -> avoids bad (call_ext e d).
Proof. intros He t te [<-|[]]. exact He. Qed.

Lemma avoids_sleep (ms : Z) : bad (Sleep ms) = false -> avoids bad (sleep ms).
Proof. intros He t te [<-|[]]. exact He. Qed.

Lemma avoids_ret {A} (a : A) : avoids bad (ret a).
Proof. intros t te []. Qed.

Lemma avoids_throw {A} : avoids bad (@throw A).
Proof. intros t te []. Qed.

Lemma avoids_now : avoids bad now.
Proof. intros t te []. Qed.

Lemma avoids_reload {A} : bad Reload = false -> avoids bad (@reload A).
Proof. intros He t te [<-|[]]. exact He. Qed.

Lemma avoids_poll (ac : bool) (w : Z) (fuel : nat) :
  bad (Sleep authCheckInterval) = false -> avoids bad (poll_loop ac w fuel).
Proof.
  intros Hs. revert w. induction fuel as [|f IH]; intro w; cbn [poll_loop].
  - apply avoids_ret.
  - destruct (poll_cond ac w); [apply avoids_bind; [apply avoids_sleep, Hs | intro; apply IH]|].
    apply avoids_ret.
Qed.

Lemma avoids_pacing (startTime : Z) :
  bad (SetLoadingMessage "Almost ready...") = false -> (forall ms, bad (Sleep ms) = false) ->
  avoids bad (min_display_wait startTime).
Proof.
  intros Hm Hs. unfold min_display_wait. apply avoids_bind; [apply avoids_now|]. intro t.
  cbv zeta. destruct (_ >? 0).
  - apply avoids_bind; [apply avoids_emit, Hm | intro; apply avoids_sleep, Hs].
  - apply avoids_ret.
Qed.

End Combinators.

Ltac avoids_auto :=
  repeat first
    [ apply avoids_ret | apply avoids_throw | apply avoids_now
    | apply avoids_reload; reflexivity
    | apply avoids_poll; reflexivity
    | apply avoids_pacing; [reflexivity | intro; reflexivity]
    | apply avoids_emit; reflexivity
    | apply avoids_call; reflexivity
    | apply avoids_sleep; reflexivity
    | match goal with |- avoids _ (let _ := _ in _) => cbv zeta end
    | apply avoids_bind; [|intro]
    | apply avoids_try
    | match goal with |- avoids _ (if ?b then _ else _) => destruct b end
    | match goal with |- avoids _ (match ?x with _ => _ end) => destruct x end ].

Lemma ends_ready_bind {A B} (m : M A) (k : A -> M B) :
  (forall a, ends_ready (k a)) -> ends_ready (bind m k).
Proof.
  intros Hk t b. unfold run_outcome, run_events, bind.
  destruct (m t) as [[[a| |] t1] l1]; [|discriminate|discriminate].
  specialize (Hk a t1 b). unfold run_outcome, run_events in Hk.
  destruct (k a t1) as [[r t2] l2]. cbn [fst snd] in *. intros Hr.
  destruct (Hk Hr) as (pre & t' & ->). exists (l1 ++ pre), t'. now rewrite app_assoc.
Qed.

Lemma ends_ready_try {A} (m h : M A) :
  ends_ready m -> ends_ready h -> ends_ready (try_catch m h).
Proof.
  intros Hm Hh t b. unfold run_outcome, run_events, try_catch.
  specialize (Hm t b). unfold run_outcome, run_events in Hm.
  destruct (m t) as [[[a| |] t1] l1]; cbn [fst snd] in *; try exact Hm.
  specialize (Hh t1 b). unfold run_outcome, run_events in Hh.
  destruct (h t1) as [[r t2] l2]. cbn [fst snd] in *. intros Hr.
  destruct (Hh Hr) as (pre & t' & ->). exists (l1 ++ pre), t'. now rewrite app_assoc.
Qed.

Lemma ends_ready_emit : ends_ready (emit SetIsReady).
Proof. intros t a _. exists [], t. reflexivity. Qed.

Lemma reload_visible_bind {A B} (m : M A) (k : A -> M B) :
  reload_visible m -> (forall a, reload_visible (k a)) -> reload_visible (bind m k).
Proof.
  intros Hm Hk t. unfold reload_visible, run_outcome, run_events, bind in *.
  specialize (Hm t).
  destruct (m t) as [[[a| |] t1] l1]; cbn in *;
    [| intro; discriminate | intros _; apply Hm; reflexivity].
  specialize (Hk a t1). destruct (k a t1) as [[r t2] l2]. cbn [fst snd] in *.
  intros Hr. rewrite map_app, in_app_iff. right. exact (Hk Hr).
Qed.

Lemma reload_visible_try {A} (m h : M A) :
  reload_visible m -> reload_visible h -> reload_visible (try_catch m h).
Proof.
  intros Hm Hh t. unfold reload_visible, run_outcome, run_events, try_catch in *.
  specialize (Hm t).
  destruct (m t) as [[[a| |] t1] l1]; cbn in *; try exact Hm.
  specialize (Hh t1). destruct (h t1) as [[r t2] l2]. cbn [fst snd] in *.
  intros Hr. rewrite map_app, in_app_iff. right. exact (Hh Hr).
Qed.

Lemma reload_visible_emit (e : event) : reload_visible (emit e).
Proof. intros t H. discriminate. Qed.

Lemma reload_visible_call (e : event) (d : Z) : reload_visible (call_ext e d).
Proof. intros t H. discriminate. Qed.

Lemma reload_visible_sleep (ms : Z) : reload_visible (sleep ms).
Proof. intros t H. discriminate. Qed.

Lemma reload_visible_ret {A} (a : A) : reload_visible (ret a).
Proof. intros t H. discriminate. Qed.

Lemma reload_visible_throw {A} : reload_visible (@throw A).
Proof. intros t H. discriminate. Qed.

Lemma reload_visible_now : reload_visible now.
Proof. intros t H. discriminate. Qed.

Lemma reload_visible_reload {A} : reload_visible (@reload A).
Proof. intros t _. left. reflexivity. Qed.

Lemma reload_visible_poll (ac : bool) (w : Z) (fuel : nat) :
  reload_visible (poll_loop ac w fuel).
Proof.
  revert w. induction fuel as [|f IH]; intro w; cbn [poll_loop].
  - apply reload_visible_ret.
  - destruct (poll_cond ac w); [|apply reload_visible_ret].
    apply reload_visible_bind; [apply reload_visible_sleep | intro; apply IH].
Qed.

Lemma reload_visible_pacing (startTime : Z) : reload_visible (min_display_wait startTime).
Proof.
  unfold min_display_wait. apply reload_visible_bind; [apply reload_visible_now|].
  intro t. cbv zeta. destruct (_ >? 0); [|apply reload_visible_ret].
  apply reload_visible_bind; [apply reload_visible_emit | intro; apply reload_visible_sleep].
Qed.

Ltac reload_visible_auto :=
  repeat first
    [ apply reload_visible_ret | apply reload_visible_throw | apply reload_visible_now
    | apply reload_visible_reload | apply reload_visible_poll | apply reload_visible_pacing
    | apply reload_visible_emit | apply reload_visible_call | apply reload_visible_sleep
    | match goal with |- reload_visible (let _ := _ in _) => cbv zeta end
    | apply reload_visible_bind; [|intro]
    | apply reload_visible_try
    | match goal with |- reload_visible (if ?b then _ else _) => destruct b end
    | match goal with |- reload_visible (match ?x with _ => _ end) => destruct x end ].

Lemma initializeApp_reload_visible (env : Env) (ac : bool) (route0 : option route) :
  reload_visible (initializeApp env ac route0).
Proof.
  unfold initializeApp, ota_update_check, checkForUpdateAsync, fetchUpdateAsync,
    netinfo_fetch, registerForPushNotifications, setupNotificationListeners.
  reload_visible_auto.
Qed.

Lemma ewd_bind_r {A B} (e : event) (m : M A) (k : A -> M B) :
  (forall a, emits_when_done e (k a)) -> emits_when_done e (bind m k).
Proof.
  intros Hk t b. unfold run_outcome, run_events, bind.
  destruct (m t) as [[[a| |] t1] l1]; cbn in *; [|discriminate|discriminate].
  specialize (Hk a t1 b). unfold run_outcome, run_events in Hk.
  destruct (k a t1) as [[r t2] l2]. cbn in *. intros Hr.
  rewrite map_app, in_app_iff. right. exact (Hk Hr).
Qed.

Lemma ewd_bind_l {A B} (e : event) (m : M A) (k : A -> M B) :
  emits_when_done e m -> emits_when_done e (bind m k).
Proof.
  intros Hm t b. unfold run_outcome, run_events, bind.
  specialize (Hm t). unfold run_outcome, run_events in Hm.
  destruct (m t) as [[[a| |] t1] l1]; cbn in *; [|discriminate|discriminate].
  destruct (k a t1) as [[r t2] l2]. cbn in *. intros _.
  rewrite map_app, in_app_iff. left. exact (Hm a eq_refl).
Qed.

Lemma ewd_try {A} (e : event) (m h : M A) :
  emits_when_done e m -> emits_when_done e h -> emits_when_done e (try_catch m h).
Proof.
  intros Hm Hh t b. unfold run_outcome, run_events, try_catch.
  specialize (Hm t b). unfold run_outcome, run_events in Hm.
  destruct (m t) as [[[a| |] t1] l1]; cbn in *; try exact Hm.
  specialize (Hh t1 b). unfold run_outcome, run_events in Hh.
  destruct (h t1) as [[r t2] l2]. cbn in *. intros Hr.
  rewrite map_app, in_app_iff. right. exact (Hh Hr).
Qed.

Lemma ewd_emit (e : event) : emits_when_done e (emit e).
Proof. intros t a _. left. reflexivity. Qed.

Lemma initializeApp_unfold (env : Env) (ac : bool) (route0 : option route) (t : Z) :
  initializeApp env ac route0 t =
  try_catch
    (emit (SetLoadingMessage "Loading assets...") ;;
     ota_update_check env ;;
     netinfo_fetch env ;;
     sleep 500 ;;
     emit (SetLoadingMessage "Checking authentication...") ;;
     let* _ := poll_loop ac 0 poll_fuel in
     (match route0 with
      | None => emit (SetInitialRouteName Login)
      | Some _ => ret tt
      end) ;;
     emit (SetLoadingMessage "Setting up notifications...") ;;
     try_catch (registerForPushNotifications env) (ret tt) ;;
     emit (SetLoadingMessage "Finalizing...") ;;
     setupNotificationListeners env ;;
     min_display_wait t ;;
     emit SetIsReady)
    ((match route0 with
      | None => emit (SetInitialRouteName Login)
      | Some _ => ret tt
      end) ;;
     emit SetIsReady) t.
Proof.
  unfold initializeApp at 1, bind at 1, now at 1. cbv beta iota.
  match goal with |- context [match ?x with _ => _ end] => destruct x as [[r t2] l2] end.
  reflexivity.
Qed.

Lemma initializeApp_ends_ready (env : Env) (ac : bool) (route0 : option route) :
  ends_ready (initializeApp env ac route0).
Proof.
  apply ends_ready_bind. intro st. apply ends_ready_try.
  - repeat (apply ends_ready_bind; intro). apply ends_ready_emit.
  - apply ends_ready_bind. intro. apply ends_ready_emit.
Qed.

Lemma initializeApp_login_default (env : Env) (ac : bool) :
  emits_when_done (SetInitialRouteName Login) (initializeApp env ac None).
Proof.
  apply ewd_bind_r. intro st. apply ewd_try.
  - repeat first [ apply ewd_bind_l; apply ewd_emit | apply ewd_bind_r; intro ].
  - apply ewd_bind_l. apply ewd_emit.
Qed.

(** ** [initializeApp] *)

(** X: a development build never calls the Update Service during startup:
    no [checkForUpdateAsync], [fetchUpdateAsync] or [reloadAsync]. *)
Theorem dev_startup_skips_update_service (env : Env) (ac : bool) (route0 : option route) :
  dev env = true -> avoids is_update_call (initializeApp env ac route0).
Proof.
  intros Hd. unfold initializeApp, ota_update_check. rewrite Hd. cbn [negb].
  unfold netinfo_fetch, registerForPushNotifications, setupNotificationListeners.
  avoids_auto.
Qed.

(** X: a run of [initializeApp] never lets an exception out: it ends
    normally or in the reload, and when it ends normally its last event is
    [setIsReady(true)]. *)
Theorem startup_run_ends_ready (env : Env) (ac : bool) (route0 : option route) (t : Z) :
  (run_outcome (initializeApp env ac route0) t = Done tt \/
   run_outcome (initializeApp env ac route0) t = Reloaded) /\
  (run_outcome (initializeApp env ac route0) t = Done tt ->
   exists pre t', run_events (initializeApp env ac route0) t = pre ++ [(t', SetIsReady)]).
Proof.
  split.
  - unfold run_outcome. rewrite initializeApp_unfold. unfold try_catch.
    match goal with
    | |- context [match ?x with _ => _ end] => destruct x as [[[[]| |] t1] l1]
    end; cbn; [now left | | now right].
    left. destruct route0; reflexivity.
  - apply (fun H => H t tt). apply initializeApp_ends_ready.
Qed.

(** X: [initializeApp] never routes to [MainApp]; a run whose closure saw
    a route writes none; a run whose closure saw [null] writes [Login]
    whenever it ends normally (so before its final [setIsReady]). *)
Theorem startup_run_route_writes (env : Env) (ac : bool) (route0 : option route) :
  avoids is_main_route (initializeApp env ac route0) /\
  (route0 <> None -> avoids is_route_write (initializeApp env ac route0)) /\
  (route0 = None -> emits_when_done (SetInitialRouteName Login) (initializeApp env ac route0)).
Proof.
  unfold initializeApp, ota_update_check, checkForUpdateAsync, fetchUpdateAsync,
    netinfo_fetch, registerForPushNotifications, setupNotificationListeners.
  split; [avoids_auto|]. split.
  - intros Hr. destruct route0 as [r|]; [|congruence]. avoids_auto.
  - intros ->. apply initializeApp_login_default.
Qed.

(** X: a rejected [registerForPushNotifications()] is invisible: the run
    is the same, event for event and to the millisecond, as when it
    resolves. *)
Theorem push_registration_failure_ignored (env : Env) (ac : bool) (route0 : option route) :
  initializeApp (with_push_ok env false) ac route0 = initializeApp (with_push_ok env true) ac route0.
Proof.
  assert (Hp : try_catch (registerForPushNotifications (with_push_ok env false)) (ret tt)
             = try_catch (registerForPushNotifications (with_push_ok env true)) (ret tt)).
  { extensionality t. reflexivity. }
  unfold initializeApp. rewrite Hp. reflexivity.
Qed.

Lemma initializeApp_outcome (env : Env) (ac : bool) (route0 : option route) (t : Z) :
  run_outcome (initializeApp env ac route0) t = Done tt \/
  run_outcome (initializeApp env ac route0) t = Reloaded.
Proof.
  unfold run_outcome. rewrite initializeApp_unfold. unfold try_catch.
  match goal with
  | |- context [match ?x with _ => _ end] => destruct x as [[[[]| |] t1] l1]
  end; cbn; [now left | | now right].
  left. destruct route0; reflexivity.
Qed.

Lemma eur_bind_l {A B} (e : event) (m : M A) (k : A -> M B) :
  emits_unless_reloaded e m -> emits_unless_reloaded e (bind m k).
Proof.
  intros Hm t. unfold emits_unless_reloaded, run_outcome, run_events, bind in *.
  specialize (Hm t).
  destruct (m t) as [[[a| |] t1] l1]; cbn in *.
  - destruct (k a t1) as [[r t2] l2]. cbn. intros _.
    rewrite map_app, in_app_iff. left. apply Hm. discriminate.
  - intros _. apply Hm. discriminate.
  - intros H. contradiction H. reflexivity.
Qed.

Lemma eur_bind_now {B} (e : event) (k : Z -> M B) :
  (forall a, emits_unless_reloaded e (k a)) -> emits_unless_reloaded e (bind now k).
Proof.
  intros Hk t. specialize (Hk t t).
  unfold emits_unless_reloaded, run_outcome, run_events, bind, now in *. cbn.
  destruct (k t t) as [[r t2] l2]. exact Hk.
Qed.

Lemma eur_emit_then {B} (e x : event) (k : M B) :
  emits_unless_reloaded e k -> emits_unless_reloaded e (emit x ;; k).
Proof.
  intros Hk t. specialize (Hk t).
  unfold emits_unless_reloaded, run_outcome, run_events, bind, emit in *. cbn.
  destruct (k t) as [[r t2] l2]. cbn in *. intros H. right. exact (Hk H).
Qed.

Lemma eur_try {A} (e : event) (m h : M A) :
  emits_unless_reloaded e m -> emits_unless_reloaded e (try_catch m h).
Proof.
  intros Hm t. specialize (Hm t).
  unfold emits_unless_reloaded, run_outcome, run_events, try_catch in *.
  destruct (m t) as [[[a| |] t1] l1]; cbn in *; try exact Hm.
  destruct (h t1) as [[r t2] l2]. cbn. intros _.
  rewrite map_app, in_app_iff. left. apply Hm. discriminate.
Qed.

Ltac not_in_list :=
  let H := fresh in
  intros H; repeat (destruct H as [H|H]; [discriminate|]); destruct H.

(** The OTA block of a production launch whose check or download fails. *)
Lemma ota_update_fails (env : Env) (t : Z) :
  dev env = false ->
  update env = CheckFails \/ (update env = UpdateAvailable /\ fetch_ok env = false) ->
  run_outcome (ota_update_check env) t = Done tt /\
  ~ In Reload (map snd (run_events (ota_update_check env) t)) /\
  (In CaptureException (map snd (run_events (ota_update_check env) t)) <-> sentry_dsn env = true).
Proof.
  intros Hd Hu. unfold ota_update_check, checkForUpdateAsync, fetchUpdateAsync,
    run_outcome, run_events. rewrite Hd.
  destruct Hu as [Hu|[Hu Hf]]; rewrite Hu; [|rewrite Hf];
    destruct (sentry_dsn env); cbn;
    (split; [reflexivity | split; [not_in_list | split]]);
    first [ solve [intros _; reflexivity] | solve [intros H; discriminate]
          | solve [not_in_list] | intros _; repeat first [left; reflexivity | right] ].
Qed.

(** X: in a production build, an update check or download that fails
    does not stop the launch: the run ends normally without reloading, and
    the error goes to Sentry exactly when a DSN is configured. *)
Theorem prod_update_failure_not_fatal (env : Env) (ac : bool) (route0 : option route) (t : Z) :
  dev env = false ->
  update env = CheckFails \/ (update env = UpdateAvailable /\ fetch_ok env = false) ->
  run_outcome (initializeApp env ac route0) t = Done tt /\
  ~ In Reload (map snd (run_events (initializeApp env ac route0) t)) /\
  (In CaptureException (map snd (run_events (initializeApp env ac route0) t))
   <-> sentry_dsn env = true).
Proof.
  intros Hd Hu.
  assert (Hnr : no_reload (initializeApp env ac route0)).
  { unfold initializeApp. apply no_reload_bind; [apply no_reload_now | intro st].
    apply no_reload_try; [|no_reload_auto].
    apply no_reload_bind; [apply no_reload_emit; discriminate | intros _].
    apply no_reload_bind; [intro t'; apply (ota_update_fails env t' Hd Hu) | intros _].
    unfold netinfo_fetch, registerForPushNotifications, setupNotificationListeners.
    no_reload_auto. }
  assert (Hdone : run_outcome (initializeApp env ac route0) t = Done tt).
  { destruct (initializeApp_outcome env ac route0 t) as [H|H]; [exact H|].
    exfalso. apply (Hnr t). apply initializeApp_reload_visible. exact H. }
  split; [exact Hdone | split; [apply Hnr|]]. split.
  - intros Hin. destruct (sentry_dsn env) eqn:Hs; [reflexivity|].
    exfalso. assert (Ha : avoids is_capture (initializeApp env ac route0)).
    { unfold initializeApp, ota_update_check, checkForUpdateAsync, fetchUpdateAsync,
        netinfo_fetch, registerForPushNotifications, setupNotificationListeners.
      rewrite Hs. avoids_auto. }
    apply in_map_iff in Hin. destruct Hin as [[t' e] [He Hin]]. cbn in He. subst e.
    specialize (Ha t _ Hin). discriminate.
  - intros Hs. assert (He : emits_unless_reloaded CaptureException (initializeApp env ac route0)).
    { unfold initializeApp. apply eur_bind_now. intro st. apply eur_try.
      apply eur_emit_then. apply eur_bind_l. intros t' _.
      apply (ota_update_fails env t' Hd Hu). exact Hs. }
    apply He. rewrite Hdone. discriminate.
Qed.

Lemma poll_loop_shift (ac : bool) (fuel : nat) : forall (w t : Z),
  poll_loop ac w fuel t =
  (fst (fst (poll_loop ac w fuel 0)), t + snd (fst (poll_loop ac w fuel 0)),
   map (fun te => (t + fst te, snd te)) (snd (poll_loop ac w fuel 0))).
Proof.
  induction fuel as [|f IH]; intros w t; cbn [poll_loop].
  - unfold ret. cbn. f_equal. f_equal. lia.
  - destruct (poll_cond ac w); [|unfold ret; cbn; f_equal; f_equal; lia].
    unfold bind, sleep. cbv beta iota.
    rewrite (IH _ (t + authCheckInterval)), (IH _ (0 + authCheckInterval)).
    destruct (poll_loop ac (w + authCheckInterval) f 0) as [[r t2] l2]. cbn [fst snd map app].
    rewrite map_map. f_equal; [f_equal; lia|]. f_equal; [f_equal; lia|].
    apply map_ext. intros [a b]. cbn [fst snd]. f_equal. lia.
Qed.

(** X: the polling loop only reads the [authChecked] of its closure: when
    that is [false] it always sleeps 50 times 100 ms and reports 5000 ms,
    whatever the auth listener does meanwhile; when it is [true] it does
    not wait at all. *)
Theorem stale_auth_wait_exact (t : Z) :
  poll_loop false 0 poll_fuel t =
    (Done maxAuthWait, t + maxAuthWait,
     map (fun k => (t + authCheckInterval * Z.of_nat k, Sleep authCheckInterval)) (seq 0 50)) /\
  poll_loop true 0 poll_fuel t = (Done 0, t, []).
Proof.
  split.
  - rewrite poll_loop_shift. reflexivity.
  - reflexivity.
Qed.

(** ** The auth listener and the launch *)

Lemma auth_listener_checked (ready_at : Z -> bool) (reports : list (Z * auth_report)) :
  forall b, authChecked_writes (auth_listener ready_at b reports) = map (fun r => (fst r, true)) reports.
Proof.
  induction reports as [|[t a] rest IH]; intro b; [reflexivity|].
  cbn [auth_listener]. destruct (negb b && negb (ready_at t)); cbn; rewrite IH; reflexivity.
Qed.

Lemma auth_listener_routed (ready_at : Z -> bool) (reports : list (Z * auth_report)) :
  route_writes (auth_listener ready_at true reports) = [].
Proof.
  induction reports as [|[t a] rest IH]; [reflexivity|].
  cbn [auth_listener negb andb]. cbn. exact IH.
Qed.

(** X: the auth listener sets [authChecked] once per callback, and writes
    the initial route at most once: at the first callback whose closure
    has [isReady = false], [MainApp] for a user and [Login] otherwise; when
    [isReady] is already true at every callback it writes none. *)
Theorem auth_listener_route_once (ready_at : Z -> bool) (reports : list (Z * auth_report)) :
  route_writes (auth_listener ready_at false reports) =
    match find (fun r => negb (ready_at (fst r))) reports with
    | None => []
    | Some (t, a) => [(t, auth_route a)]
    end /\
  authChecked_writes (auth_listener ready_at false reports) = map (fun r => (fst r, true)) reports.
Proof.
  split; [|apply auth_listener_checked].
  induction reports as [|[t a] rest IH]; [reflexivity|].
  cbn [auth_listener find fst]. destruct (ready_at t); cbn [negb andb].
  - cbn. exact IH.
  - cbn. rewrite auth_listener_routed. destruct a; reflexivity.
Qed.

Lemma merge_in (x : timed) (l1 : list timed) : forall l2 : list timed,
  In x (merge l1 l2) <-> In x l1 \/ In x l2.
Proof.
  induction l1 as [|y r1 IH1]; intro l2; [cbn; tauto|].
  induction l2 as [|z r2 IH2]; [cbn; tauto|].
  change (merge (y :: r1) (z :: r2))
    with (if fst z <? fst y then z :: merge (y :: r1) r2 else y :: merge r1 (z :: r2)).
  destruct (fst z <? fst y); cbn [In].
  - rewrite IH2. cbn [In]. tauto.
  - rewrite IH1. cbn [In]. tauto.
Qed.

Lemma launch_fold_incl (env : Env) (runs : list (Z * bool)) : forall acc x,
  In x acc ->
  In x (fold_left
          (fun acc (run : Z * bool) =>
             let '(t, ac) := run in
             let route0 := initialRouteName (state_upto t acc) in
             merge acc (run_events (initializeApp env ac route0) t))
          runs acc).
Proof.
  induction runs as [|[t ac] runs IH]; intros acc x Hx; [exact Hx|].
  cbn [fold_left]. apply IH. apply merge_in. left. exact Hx.
Qed.

Lemma upto_reload_id (tr : list timed) :
  ~ In Reload (map snd (upto_reload tr)) -> upto_reload tr = tr.
Proof.
  induction tr as [|[t e] r IH]; [reflexivity|].
  destruct e; cbn; intro H; try (f_equal; apply IH; tauto).
  exfalso. apply H. left. reflexivity.
Qed.

Lemma fold_state_ready (tr : list timed) : forall s,
  isReady s = true \/ In SetIsReady (map snd tr) ->
  isReady (fold_left (fun s te => apply_event s (snd te)) tr s) = true.
Proof.
  induction tr as [|[t e] r IH]; intros s Hs; cbn in *.
  - destruct Hs as [H|[]]. exact H.
  - apply IH. destruct Hs as [H|[H|H]]; [left|left|right; exact H].
    + destruct s, e; cbn in *; first [reflexivity | exact H].
    + subst e. reflexivity.
Qed.

Lemma fold_state_route (tr : list timed) : forall s,
  initialRouteName s <> None \/ (exists r, In (SetInitialRouteName r) (map snd tr)) ->
  initialRouteName (fold_left (fun s te => apply_event s (snd te)) tr s) <> None.
Proof.
  induction tr as [|[t e] r IH]; intros s Hs; cbn in *.
  - destruct Hs as [H|[r []]]. exact H.
  - apply IH. destruct Hs as [H|[r0 [H|H]]]; [left|left|right; exists r0; exact H].
    + destruct s, e; cbn in *; congruence.
    + subst e. cbn. discriminate.
Qed.

(** A route known at [t] was written by some event of the trace. *)
Lemma state_upto_route (t : Z) (tr : list timed) : forall s,
  initialRouteName (fold_left (fun s te => if fst te <=? t then apply_event s (snd te) else s) tr s)
    <> None ->
  initialRouteName s <> None \/ exists r, In (SetInitialRouteName r) (map snd tr).
Proof.
  induction tr as [|[t0 e] r IH]; intros s Hs; cbn in *; [left; exact Hs|].
  destruct (IH _ Hs) as [H|[r0 H]]; [|right; exists r0; right; exact H].
  destruct (t0 <=? t); [|left; exact H].
  destruct e; cbn in H; try (left; exact H).
  right. exists r0. left. reflexivity.
Qed.

(** X: a launch that does not restart through [reloadAsync] always ends
    with [isReady] true and an initial route set: the first run of
    [initializeApp] (mount time, [authChecked = false]) reaches
    [setIsReady(true)], whatever the services and the auth reports. *)
Theorem launch_without_reload_ends_ready (env : Env) (reports : list (Z * auth_report)) :
  ~ In Reload (map snd (launch env reports)) ->
  isReady (final_state (launch env reports)) = true /\
  initialRouteName (final_state (launch env reports)) <> None.
Proof.
  intros Hno. unfold launch in *. rewrite upto_reload_id in * by exact Hno.
  unfold launch_runs, effect_runs in *. cbn [fold_left] in *.
  set (cb := launch_callbacks env reports) in *.
  set (r0 := initialRouteName (state_upto 0 cb)) in *.
  set (E := run_events (initializeApp env false r0) 0).
  set (F := fold_left _ _ (merge cb E)) in *.
  assert (HE : forall x, In x E -> In x F).
  { intros x Hx. apply launch_fold_incl. apply merge_in. right. exact Hx. }
  assert (Hcb : forall x, In x cb -> In x F).
  { intros x Hx. apply launch_fold_incl. apply merge_in. left. exact Hx. }
  assert (HinF : forall e, In e (map snd E) -> In e (map snd F)).
  { intros e He. apply in_map_iff in He. destruct He as [x [<- Hx]].
    apply in_map. apply HE. exact Hx. }
  assert (Hdone : run_outcome (initializeApp env false r0) 0 = Done tt).
  { destruct (initializeApp_outcome env false r0 0) as [H|H]; [exact H|].
    exfalso. apply Hno. apply HinF. apply initializeApp_reload_visible. exact H. }
  unfold final_state. split.
  - apply fold_state_ready. right. apply HinF.
    destruct (initializeApp_ends_ready env false r0 0 tt Hdone) as [pre [t' Hev]].
    unfold E. rewrite Hev, map_app, in_app_iff. right. left. reflexivity.
  - apply fold_state_route. right.
    assert (Hr0 : initialRouteName (state_upto 0 cb) = r0) by reflexivity.
    clearbody r0. destruct r0 as [r|].
    + destruct (state_upto_route 0 cb initial_state) as [H|[r1 H]].
      * unfold state_upto in Hr0. rewrite Hr0. discriminate.
      * exfalso. apply H. reflexivity.
      * exists r1. apply in_map_iff in H. destruct H as [x [Hx Hin]].
        rewrite <- Hx. apply in_map. apply Hcb. exact Hin.
    + exists Login. apply HinF. apply (initializeApp_login_default env false 0 tt Hdone).
Qed.

(** ** Error capture *)

Section ErrorHandlerProofs.
Import ErrorCapture.

(** What [logErrorToStorage] leaves alone. *)
Lemma log_frame (e : jsval) (ctx : string) (w : World) :
  sentry_calls (snd (logErrorToStorage e ctx w)) = sentry_calls w /\
  alerts (snd (logErrorToStorage e ctx w)) = alerts w /\
  sentry_ok (snd (logErrorToStorage e ctx w)) = sentry_ok w.
Proof.
  destruct w as [st g so c sk sc al co].
  destruct g, st as [[l|]|], e, so; cbn -[slice_last]; auto.
Qed.

Lemma slice_last_small {A : Type} (n : nat) (l : list A) :
  (List.length l <= n)%nat -> slice_last n l = l.
Proof. intros H. unfold slice_last. replace (List.length l - n)%nat with 0%nat by lia. reflexivity. Qed.

Lemma slice_last_app {A : Type} (n : nat) (l m : list A) :
  slice_last n (slice_last n l ++ m) = slice_last n (l ++ m).
Proof.
  destruct (Nat.le_gt_cases (List.length l) n) as [Hle|Hgt].
  - rewrite (slice_last_small n l Hle). reflexivity.
  - unfold slice_last. rewrite !length_app, length_skipn.
    replace (List.length l - (List.length l - n) + List.length m - n)%nat
      with (List.length m) by lia.
    replace (List.length l + List.length m - n)%nat
      with (List.length m + (List.length l - n))%nat by lia.
    rewrite <- skipn_skipn, (skipn_app (List.length l - n) l m).
    replace (List.length l - n - List.length l)%nat with 0%nat by lia.
    reflexivity.
Qed.

(** X: when [logErrorToStorage] fails (storage unreadable or failing, a
    stored value that is not a JSON array, or a [null]/[undefined] error)
    it returns normally, leaves the stored log as it was and only reports
    "Failed to log error to storage:" on the console. *)
Theorem log_failure_keeps_store (e : jsval) (ctx : string) (w : World) :
  get_ok w = false \/ store w = Some Unreadable \/ e = JNull \/ e = JUndefined \/
  set_ok w = false ->
  logErrorToStorage e ctx w =
    (HOk tt, mkWorld (store w) (get_ok w) (set_ok w) (clock w) (sentry_ok w)
               (sentry_calls w) (alerts w)
               (console w ++ ["Failed to log error to storage:"%string])).
Proof.
  destruct w as [st g so c sk sc al co]. cbn [store get_ok set_ok].
  intros H. destruct g, st as [[l|]|], e, so; cbn -[slice_last];
    first [ reflexivity | exfalso; intuition discriminate ].
Qed.

(** X: for every error, state of storage and of the reporter,
    [handleGlobalError] sends the error to [Sentry.captureException]
    exactly once when the DSN is configured (a failed log write does not
    stop it) and never otherwise, and never shows an alert. *)
Theorem global_error_reports_to_sentry (env : Env) (e : jsval) (isFatal : bool) (w : World) :
  sentry_calls (snd (handleGlobalError env e isFatal w)) =
    sentry_calls w ++ (if sentry_dsn env then [e] else []) /\
  alerts (snd (handleGlobalError env e isFatal w)) = alerts w.
Proof.
  unfold handleGlobalError, hbind. cbn [console_error fst snd].
  match goal with
  | |- context [logErrorToStorage ?e0 ?c ?w1] =>
      pose proof (log_total e0 c w1) as Ht; pose proof (log_frame e0 c w1) as Hf;
      destruct (logErrorToStorage e0 c w1) as [r w2]
  end.
  cbn in Ht, Hf. subst r. destruct Hf as (Hsc & Hal & Hso). cbn.
  destruct (sentry_dsn env); cbn.
  - unfold htry, captureException. destruct (sentry_ok w2);
      destruct (isFatal && negb (dev env)); cbn; rewrite Hsc, Hal; split; reflexivity.
  - destruct (isFatal && negb (dev env)); cbn; rewrite Hsc, Hal, ?app_nil_r; split; reflexivity.
Qed.

(** X: [handleUnhandledRejection] works on the rejection's [reason], or on
    the event object itself when the reason is falsy; that value always
    has a message, so in a development build it shows exactly one alert
    "Unhandled Error" with it (none in production), and it goes to Sentry
    exactly when the DSN is configured. *)
Theorem rejection_handler_effects (env : Env) (ev : rejection_event) (w : World) :
  let error := if truthy (reason ev) then reason ev else event_value in
  exists msg,
    message_of error w = (HOk msg, w) /\
    alerts (snd (handleUnhandledRejection env ev w)) =
      alerts w ++ (if dev env then [("Unhandled Error"%string, msg)] else []) /\
    sentry_calls (snd (handleUnhandledRejection env ev w)) =
      sentry_calls w ++ (if sentry_dsn env then [error] else []).
Proof.
  intros error.
  assert (Hm : exists msg, forall w0, message_of error w0 = (HOk msg, w0)).
  { unfold error. destruct (reason ev) as [| |m sk r|r b]; cbn;
      try (destruct b); eexists; intro; reflexivity. }
  destruct Hm as [msg Hm]. exists msg. split; [apply Hm|].
  unfold handleUnhandledRejection. fold error. unfold hbind. cbn [console_error fst snd].
  match goal with
  | |- context [logErrorToStorage ?e0 ?c ?w1] =>
      pose proof (log_total e0 c w1) as Ht; pose proof (log_frame e0 c w1) as Hf;
      destruct (logErrorToStorage e0 c w1) as [r w2]
  end.
  cbn in Ht, Hf. subst r. destruct Hf as (Hsc & Hal & Hso). cbn.
  destruct (sentry_dsn env); cbn;
    [unfold htry, captureException; destruct (sentry_ok w2); cbn|];
    (destruct (dev env); cbn; [rewrite Hm; cbn|]);
    rewrite Hsc, Hal, ?app_nil_r; split; reflexivity.
Qed.

(** X: appends that each complete before the next compose: after any
    sequence of successful appends the stored log is the last 50 of the
    old log followed by the new entries, in the order of the calls. *)
Theorem log_appends_compose (appends : list (jsval * string)) (w : World) :
  get_ok w = true -> set_ok w = true -> store w <> Some Unreadable ->
  (List.length (stored_log w) <= 50)%nat ->
  Forall (fun ec => fst ec <> JNull /\ fst ec <> JUndefined) appends ->
  exists entries,
    map context entries = map snd appends /\
    stored_log (run_appends appends w) = slice_last 50 (stored_log w ++ entries).
Proof.
  revert w. induction appends as [|[e ctx] rest IH]; intros w Hg Hs Hu Hlen Hall.
  - exists []. split; [reflexivity|]. rewrite app_nil_r, slice_last_small by exact Hlen.
    reflexivity.
  - inversion Hall as [|? ? [Hn Hun] Hrest]; subst. cbn [fst] in Hn, Hun.
    destruct (log_appends e ctx w Hg Hs Hu Hn Hun) as (msg & stk & _ & _ & Happ).
    set (w1 := snd (logErrorToStorage e ctx w)).
    assert (Hw1 : stored_log w1 =
                  slice_last 50 (stored_log w ++ [mkEntry (clock w) ctx msg stk])).
    { unfold w1. rewrite Happ. reflexivity. }
    destruct (IH w1) as [entries [Hctx Hlog]]; try exact Hrest.
    + unfold w1. rewrite Happ. exact Hg.
    + unfold w1. rewrite Happ. exact Hs.
    + unfold w1. rewrite Happ. discriminate.
    + rewrite Hw1. apply slice_last_length.
    + exists (mkEntry (clock w) ctx msg stk :: entries). split.
      * cbn. rewrite Hctx. reflexivity.
      * change (run_appends ((e, ctx) :: rest) w) with (run_appends rest w1).
        rewrite Hlog, Hw1, slice_last_app, <- app_assoc. reflexivity.
Qed.

End ErrorHandlerProofs.

(** ** Background updates *)

Section BackgroundProofs.
Import BackgroundUpdate.

Lemma bg_bbind {A C} (P : Prop) (m : B A) (k : A -> B C) :
  bg_extends P m -> (forall a, bg_extends P (k a)) -> bg_extends P (bbind m k).
Proof.
  intros Hm Hk l. destruct (Hm l) as [l1 [H1 P1]]. unfold bbind.
  destruct (m l) as [[a|] l1']. cbn in H1. subst l1'.
  - destruct (Hk a (l ++ l1)) as [l2 [H2 P2]]. exists (l1 ++ l2).
    rewrite H2, app_assoc. split; [reflexivity|].
    intros Hin. apply in_app_or in Hin. destruct Hin; auto.
  - cbn in H1. subst l1'. exists l1. split; [reflexivity | exact P1].
Qed.

Lemma upto_bg_reload_in (x : bg_event) (l : list bg_event) :
  In x (upto_bg_reload l) -> In x l.
Proof.
  induction l as [|e r IH]; [intros []|].
  destruct e; cbn in *; intuition.
Qed.

Lemma bg_fold (P : Prop) (evs : list (update_event_type * UEnv)) : forall acc,
  bg_extends P acc ->
  (forall ev, In ev evs -> bg_extends P (on_update_event (fst ev) (snd ev))) ->
  bg_extends P (fold_left (fun acc ev => bbind acc (fun _ => on_update_event (fst ev) (snd ev)))
                  evs acc).
Proof.
  induction evs as [|ev rest IH]; intros acc Hacc Hev; [exact Hacc|].
  cbn [fold_left]. apply IH.
  - apply bg_bbind; [exact Hacc|]. intros _. apply Hev. left. reflexivity.
  - intros ev' Hin. apply Hev. right. exact Hin.
Qed.

Lemma on_update_event_reload (ty : update_event_type) (ue : UEnv) :
  bg_extends (ty = UPDATE_AVAILABLE /\ u_update ue = UpdateAvailable /\
              u_fetch_ok ue = true /\ u_choice ue = Some RestartNow)
    (on_update_event ty ue).
Proof.
  intro l. destruct ty;
    [| exists []; rewrite app_nil_r; split; [reflexivity | intros []]
     | exists []; rewrite app_nil_r; split; [reflexivity | intros []]].
  destruct ue as [[| |] [|] [[|]|]]; cbn; eexists;
    (split; [rewrite <- ?app_assoc; reflexivity|]); cbn;
    first [ solve [intros _; repeat split]
          | let H := fresh in intros H; repeat (destruct H as [H|H]; [discriminate|]); destruct H ].
Qed.

(** X: the background listener restarts the app only in a production
    build, after an [UPDATE_AVAILABLE] event for which the check found an
    update, the download succeeded and the user pressed "Restart Now". *)
Theorem bg_reload_needs_consent (isDev : bool) (evs : list (update_event_type * UEnv)) :
  In BgReload (bg_session isDev evs) ->
  isDev = false /\
  exists ue, In (UPDATE_AVAILABLE, ue) evs /\ u_update ue = UpdateAvailable /\
             u_fetch_ok ue = true /\ u_choice ue = Some RestartNow.
Proof.
  destruct isDev; [intros []|]. intros H. split; [reflexivity|].
  unfold bg_session in H. apply upto_bg_reload_in in H.
  set (P := exists ue, In (UPDATE_AVAILABLE, ue) evs /\ u_update ue = UpdateAvailable /\
                       u_fetch_ok ue = true /\ u_choice ue = Some RestartNow).
  assert (Hb : bg_extends P (fold_left (fun acc ev => bbind acc (fun _ => on_update_event (fst ev) (snd ev)))
                               evs (bret tt))).
  { apply bg_fold.
    - intro l. exists []. rewrite app_nil_r. split; [reflexivity | intros []].
    - intros [ty ue] Hin l. destruct (on_update_event_reload ty ue l) as [l' [Hl Hp]].
      exists l'. split; [exact Hl|]. intros Hr. destruct (Hp Hr) as (-> & Hu & Hf & Hc).
      exists ue. repeat split; assumption. }
  destruct (Hb []) as [l' [Hl Hp]]. rewrite Hl in H. exact (Hp H).
Qed.

(** X: a background check that fails, or whose download fails, never shows
    the alert nor reloads: the error is caught and the last thing the
    listener does is log "Background update check failed:". *)
Theorem bg_failure_caught (ue : UEnv) (l : list bg_event) :
  u_update ue = CheckFails \/ (u_update ue = UpdateAvailable /\ u_fetch_ok ue = false) ->
  exists l',
    checkForUpdatesOnResume ue l = (Some tt, l ++ l') /\
    (forall title buttons, ~ In (BgAlert title buttons) l') /\
    ~ In BgReload l' /\
    exists pre, l' = pre ++ [BgConsole "Background update check failed:"%string].
Proof.
  destruct ue as [u f c]. cbn [u_update u_fetch_ok].
  intros [->|[-> ->]]; cbn; unfold bemit; rewrite <- ?app_assoc; eexists;
    (split; [reflexivity|]);
    (split; [intros ti bs H; repeat (destruct H as [H|H]; [discriminate|]); destruct H|]);
    (split; [intros H; repeat (destruct H as [H|H]; [discriminate|]); destruct H|]);
    match goal with |- exists pre, ?l0 = pre ++ [_] => exists (removelast l0); reflexivity end.
Qed.

End BackgroundProofs.

(** ** Witnesses of the further properties *)

Lemma dev_startup_skips_update_service_witness :
  dev env_dev = true /\ avoids is_update_call (initializeApp env_dev false None).
Proof.
  split; [reflexivity|]. apply (dev_startup_skips_update_service env_dev false None).
  reflexivity.
Defined.

Lemma prod_update_failure_not_fatal_witness :
  dev env_prod_check_fails = false /\ update env_prod_check_fails = CheckFails /\
  run_outcome (initializeApp env_prod_check_fails false None) 0 = Done tt /\
  ~ In Reload (map snd (run_events (initializeApp env_prod_check_fails false None) 0)) /\
  (In CaptureException (map snd (run_events (initializeApp env_prod_check_fails false None) 0))
   <-> sentry_dsn env_prod_check_fails = true).
Proof.
  split; [reflexivity|]. split; [reflexivity|].
  apply (prod_update_failure_not_fatal env_prod_check_fails false None 0);
    [reflexivity | left; reflexivity].
Defined.

Lemma launch_without_reload_ends_ready_witness :
  ~ In Reload (map snd (launch env_dev user_at_100)) /\
  isReady (final_state (launch env_dev user_at_100)) = true /\
  initialRouteName (final_state (launch env_dev user_at_100)) <> None.
Proof.
  assert (Hno : ~ In Reload (map snd (launch env_dev user_at_100))).
  { vm_compute. intros H. repeat (destruct H as [H|H]; [discriminate|]). destruct H. }
  split; [exact Hno|]. apply (launch_without_reload_ends_ready env_dev user_at_100 Hno).
Defined.

Section ErrorHandlerWitnesses.
Import ErrorCapture.

Lemma log_failure_keeps_store_witness :
  store corrupt_world = Some Unreadable /\
  logErrorToStorage boom "Fatal Error"%string corrupt_world =
    (HOk tt, mkWorld (Some Unreadable) true true 1000 true [] []
               ["Failed to log error to storage:"%string]).
Proof.
  split; [reflexivity|].
  apply (log_failure_keeps_store boom "Fatal Error"%string corrupt_world).
  right. left. reflexivity.
Defined.

Lemma log_appends_compose_witness :
  get_ok empty_world = true /\ set_ok empty_world = true /\
  exists entries,
    map context entries = ["Fatal Error"%string; "Non-Fatal Error"%string] /\
    stored_log (run_appends [(boom, "Fatal Error"%string); (boom, "Non-Fatal Error"%string)]
                  empty_world)
      = slice_last 50 (stored_log empty_world ++ entries).
Proof.
  split; [reflexivity|]. split; [reflexivity|].
  apply (log_appends_compose [(boom, "Fatal Error"%string); (boom, "Non-Fatal Error"%string)]
           empty_world).
  - reflexivity.
  - reflexivity.
  - discriminate.
  - cbn. lia.
  - repeat constructor; discriminate.
Defined.

End ErrorHandlerWitnesses.

Section BackgroundWitnesses.
Import BackgroundUpdate.

Lemma bg_reload_needs_consent_witness :
  In BgReload (bg_session false [(NO_UPDATE_AVAILABLE, ue_restart); (UPDATE_AVAILABLE, ue_restart)]) /\
  exists ue, In (UPDATE_AVAILABLE, ue) [(NO_UPDATE_AVAILABLE, ue_restart); (UPDATE_AVAILABLE, ue_restart)] /\
             u_choice ue = Some RestartNow.
Proof.
  assert (Hin : In BgReload (bg_session false [(NO_UPDATE_AVAILABLE, ue_restart);
                                              (UPDATE_AVAILABLE, ue_restart)])).
  { vm_compute. repeat (first [left; reflexivity | right]). }
  split; [exact Hin|].
  destruct (bg_reload_needs_consent false _ Hin) as [_ [ue (H1 & _ & _ & H4)]].
  exists ue. split; assumption.
Defined.

Lemma bg_failure_caught_witness :
  u_update ue_fetch_fails = UpdateAvailable /\ u_fetch_ok ue_fetch_fails = false /\
  exists l',
    checkForUpdatesOnResume ue_fetch_fails [] = (Some tt, [] ++ l') /\
    (forall title buttons, ~ In (BgAlert title buttons) l') /\
    ~ In BgReload l' /\
    exists pre, l' = pre ++ [BgConsole "Background update check failed:"%string].
Proof.
  split; [reflexivity|]. split; [reflexivity|].
  apply (bg_failure_caught ue_fetch_fails []). right. split; reflexivity.
Defined.

End BackgroundWitnesses.
